(** * process-exporter: the cached exporter and the node-process exporter

    A shallow embedding of the two Prometheus exporters of this repository:
    the cached exporter (background refresh of a PID -> process cache, read
    by [Collect] on every scrape) and the node-process exporter (full
    enumeration on every scrape, filtered by a set of normalized names).

    Go values are modelled as follows: [string] is a byte string, integers
    are [Z] (no arithmetic is performed on them, so no wrap-around arises),
    [float64] is the kernel's binary64 [float], a Go [map] is a [gmap], a
    channel written by one producer is the ordered list of values sent, and a
    call that returns [(T, error)] returns a [result T]. *)

From Stdlib Require Import ZArith Floats Ascii.
From stdpp Require Import gmap strings pretty list.

Open Scope Z_scope.

(** ** Go: errors, strings, conversions *)

Module Go.

(** An [error] value is represented by its message ([err.Error()]). *)
Definition error := string.

Inductive result (A : Type) : Type :=
  | Ok (a : A)
  | Err (e : error).
Arguments Ok {A} a.
Arguments Err {A} e.

Definition is_ok {A} (r : result A) : bool :=
  match r with Ok _ => true | Err _ => false end.

(** [float64(x)] for an integer [x]: rounding to nearest, ties to even. *)
Definition float64 (x : Z) : float :=
  SF2Prim (binary_normalize prec emax x 0 false).

(** [strconv.Itoa]. *)
Definition Itoa (i : Z) : string := pretty i.

(** [strings.HasPrefix]. *)
Fixpoint HasPrefix (s prefix : string) : bool :=
  match prefix, s with
  | EmptyString, _ => true
  | String _ _, EmptyString => false
  | String a prefix', String b s' =>
      if Ascii.eqb a b then HasPrefix s' prefix' else false
  end.

(** [strings.Contains]: [substr] occurs in [s] at some byte offset. *)
Fixpoint Contains (s substr : string) : bool :=
  HasPrefix s substr ||
  match s with
  | EmptyString => false
  | String _ s' => Contains s' substr
  end.

(** [strings.HasSuffix]:
    [len(s) >= len(suffix) && s[len(s)-len(suffix):] == suffix]. *)
Definition HasSuffix (s suffix : string) : bool :=
  (String.length suffix <=? String.length s)%nat &&
  String.eqb
    (String.substring (String.length s - String.length suffix)
                      (String.length suffix) s)
    suffix.

(** [strings.TrimSuffix]. *)
Definition TrimSuffix (s suffix : string) : string :=
  if HasSuffix s suffix
  then String.substring 0 (String.length s - String.length suffix) s
  else s.

Definition isASCIIbyte (c : ascii) : bool := (nat_of_ascii c <? 128)%nat.

Fixpoint isASCII (s : string) : bool :=
  match s with
  | EmptyString => true
  | String c s' => isASCIIbyte c && isASCII s'
  end.

Definition lowerByte (c : ascii) : ascii :=
  let n := nat_of_ascii c in
  if ((65 <=? n) && (n <=? 90))%nat then ascii_of_nat (n + 32) else c.

Fixpoint mapBytes (f : ascii -> ascii) (s : string) : string :=
  match s with
  | EmptyString => EmptyString
  | String c s' => String (f c) (mapBytes f s')
  end.

(** The [asciiSpace] table of package [strings]. *)
Definition asciiSpace (c : ascii) : bool :=
  let n := nat_of_ascii c in
  ((n =? 9) || (n =? 10) || (n =? 11) || (n =? 12) || (n =? 13) || (n =? 32))%nat.

Fixpoint trimLeftSpace (s : string) : string :=
  match s with
  | EmptyString => EmptyString
  | String c s' => if asciiSpace c then trimLeftSpace s' else s
  end.

Definition trimRightSpace (s : string) : string :=
  String.rev (trimLeftSpace (String.rev s)).

(** The Unicode tables behind [strings.ToLower] and [strings.TrimSpace]
    are not part of this development. Both functions have a fast path for
    strings of ASCII bytes, which is modelled exactly; on any other string
    they defer to the Unicode-aware routine, kept abstract here. *)
Class Unicode := {
  MapToLower : string -> string;       (* [Map(unicode.ToLower, s)] *)
  TrimFuncIsSpace : string -> string;  (* [TrimFunc(s, unicode.IsSpace)] *)
}.

(** [strings.ToLower]. *)
Definition ToLower `{Unicode} (s : string) : string :=
  if isASCII s then mapBytes lowerByte s else MapToLower s.

(** [strings.TrimSpace]. *)
Definition TrimSpace `{Unicode} (s : string) : string :=
  if isASCII s then trimRightSpace (trimLeftSpace s) else TrimFuncIsSpace s.

(** [strings.Split(s, sep)] for a non-empty [sep]: the pieces of [s]
    between the non-overlapping occurrences of [sep], scanned from the
    left. [skip] counts the bytes of a matched separator still to
    drop, [cur] holds the bytes of the current piece, last byte first. *)
Fixpoint splitFrom (sep s : string) (skip : nat) (cur : string) : list string :=
  match s with
  | EmptyString => [String.rev cur]
  | String c s' =>
      match skip with
      | S k => splitFrom sep s' k cur
      | O =>
          if HasPrefix s sep
          then String.rev cur :: splitFrom sep s' (String.length sep - 1) EmptyString
          else splitFrom sep s' 0 (String c cur)
      end
  end.

Definition Split (s sep : string) : list string := splitFrom sep s 0 EmptyString.

(** The tables [first] and [acceptRanges] of package [utf8]: for a leading
    byte that is not ASCII, the size of the encoding it starts and the range
    its second byte must lie in; [None] for an illegal starter byte. *)
Definition first (b : nat) : option (nat * nat * nat) :=
  (if b <? 0xC2 then None
   else if b <? 0xE0 then Some (2, 0x80, 0xBF)
   else if b =? 0xE0 then Some (3, 0xA0, 0xBF)
   else if b =? 0xED then Some (3, 0x80, 0x9F)
   else if b <? 0xF0 then Some (3, 0x80, 0xBF)
   else if b =? 0xF0 then Some (4, 0x90, 0xBF)
   else if b <? 0xF4 then Some (4, 0x80, 0xBF)
   else if b =? 0xF4 then Some (4, 0x80, 0x8F)
   else None)%nat.

Definition between (lo hi : nat) (c : ascii) : bool :=
  let n := nat_of_ascii c in ((lo <=? n) && (n <=? hi))%nat.

(** A continuation byte: [locb <= c && c <= hicb]. *)
Definition continuation (c : ascii) : bool := between 0x80 0xBF c.

(** [utf8.ValidString]: [s] consists of valid UTF-8 encodings only. *)
Fixpoint ValidString (s : string) : bool :=
  match s with
  | EmptyString => true
  | String c0 s1 =>
      if isASCIIbyte c0 then ValidString s1
      else
        match first (nat_of_ascii c0), s1 with
        | Some (2%nat, lo, hi), String c1 s2 =>
            between lo hi c1 && ValidString s2
        | Some (3%nat, lo, hi), String c1 (String c2 s3) =>
            between lo hi c1 && continuation c2 && ValidString s3
        | Some (4%nat, lo, hi), String c1 (String c2 (String c3 s4)) =>
            between lo hi c1 && continuation c2 && continuation c3 &&
            ValidString s4
        | _, _ => false                     (* illegal, short or invalid *)
        end
  end.

(** A stand-in for the Unicode routines that leaves its argument alone;
    it is never consulted on ASCII input. *)
Definition asciiOnly : Unicode :=
  {| MapToLower := fun s => s; TrimFuncIsSpace := fun s => s |}.

End Go.

Export Go.

(** ** Package [process] (gopsutil) and [mem]: the Process Source

    A [Process] is the handle [*process.Process]; what a query on a handle
    answers depends on the state of the operating system at the time of the
    call, which an [OS] value records: one per refresh cycle, one per
    scrape. *)

Module process.

Record Process := { Pid : Z (* int32 *) }.

Record TimesStat := { User : float; System : float }.
Record MemoryInfoStat := { RSS : Z; VMS : Z (* uint64 *) }.
Record IOCountersStat := { ReadBytes : Z; WriteBytes : Z (* uint64 *) }.
Record OpenFilesStat := { Path : string; Fd : Z (* uint64 *) }.
Record VirtualMemoryStat := { Total : Z (* uint64 *) }.

Record OS := {
  Processes : result (list Process);               (* process.Processes() *)
  Name : Process -> result string;
  Cmdline : Process -> result string;
  Username : Process -> result string;
  Times : Process -> result TimesStat;
  CPUPercent : Process -> result float;
  MemoryInfo : Process -> result MemoryInfoStat;
  NumThreads : Process -> result Z;                (* int32 *)
  NumFDs : Process -> result Z;                    (* int32 *)
  CreateTime : Process -> result Z;                (* int64, milliseconds *)
  OpenFiles : Process -> result (list OpenFilesStat);
  IOCounters : Process -> result IOCountersStat;
  VirtualMemory : result VirtualMemoryStat;        (* mem.VirtualMemory() *)
}.

End process.

(** ** Package [prometheus]: descriptors and constant metrics *)

Module prometheus.

Record Desc := {
  fqName : string;
  help : string;
  variableLabels : list string;
}.

(** [prometheus.NewDesc(fqName, help, variableLabels, nil)]. *)
Definition NewDesc (fqName help : string) (variableLabels : list string) : Desc :=
  {| fqName := fqName; help := help; variableLabels := variableLabels |}.

(** [prometheus.BuildFQName]. *)
Definition BuildFQName (namespace subsystem name : string) : string :=
  if String.eqb name "" then ""
  else if negb (String.eqb namespace "") && negb (String.eqb subsystem "")
  then namespace +:+ "_" +:+ subsystem +:+ "_" +:+ name
  else if negb (String.eqb namespace "") then namespace +:+ "_" +:+ name
  else if negb (String.eqb subsystem "") then subsystem +:+ "_" +:+ name
  else name.

Inductive ValueType := CounterValue | GaugeValue.

Record Metric := {
  desc : Desc;
  valueType : ValueType;
  value : float;
  labelValues : list string;
}.

End prometheus.

Export prometheus.

(** ** Effects

    A function of the program runs against a state [S] (the receiver it may
    assign to), leaves a trace of the observable things it did, and ends in
    one of four ways. *)

(** An argument of a [log] call, before formatting. *)
Inductive arg :=
| AStr (s : string)
| AInt (i : Z)
| AErr (e : error)
| AStrs (l : list string)
| ADuration (ns : Z).

Inductive event :=
| Send (m : Metric)                  (* [ch <- m] *)
| Log (format : string) (args : list arg) (* [log.Printf], [log.Fatal] *)
| Spawn (interval : Z)               (* [go func() { ... ticker ... }()] *)
| Register (descs : list Desc)       (* [registry.MustRegister] *)
| Handle (pattern : string)          (* [http.Handle] *)
| ListenAndServe (addr : string).    (* [http.ListenAndServe] called: binds *)

Inductive outcome (A : Type) :=
| Ret (a : A)                        (* returned *)
| Panic (msg : string)               (* panicked *)
| Exit (code : Z)                    (* [os.Exit(code)] *)
| Serving.                           (* blocked in the server loop *)
Arguments Ret {A} a.
Arguments Panic {A} msg.
Arguments Exit {A} code.
Arguments Serving {A}.

Definition M (S A : Type) : Type := S -> list event * outcome (A * S).

Definition ret {S A} (a : A) : M S A := fun s => ([], Ret (a, s)).

Definition bind {S A B} (m : M S A) (k : A -> M S B) : M S B :=
  fun s =>
    match m s with
    | (tr, Ret (a, s')) => let '(tr', o) := k a s' in (tr ++ tr', o)
    | (tr, Panic msg) => (tr, Panic msg)
    | (tr, Exit code) => (tr, Exit code)
    | (tr, Serving) => (tr, Serving)
    end.

Notation "'do' x <- m ; k" := (bind m (fun x => k))
  (at level 10, x name, m at level 100, k at level 200).
Notation "m ;; k" := (bind m (fun _ => k))
  (at level 100, k at level 200, right associativity).

Definition get {S} : M S S := fun s => ([], Ret (s, s)).
Definition put {S} (s : S) : M S unit := fun _ => ([], Ret (tt, s)).
Definition emit {S} (e : event) : M S unit := fun s => ([e], Ret (tt, s)).
Definition panic {S A} (msg : string) : M S A := fun _ => ([], Panic msg).
Definition exit {S A} (code : Z) : M S A := fun _ => ([], Exit code).

(** [for _, x := range l { body }]; a [continue] in the body is the body
    returning early. *)
Fixpoint forEach {S A} (l : list A) (body : A -> M S unit) : M S unit :=
  match l with
  | [] => ret tt
  | x :: l' => body x ;; forEach l' body
  end.

(** [log.Printf]. *)
Definition log_Printf {S} (format : string) (args : list arg) : M S unit :=
  emit (Log format args).

(** [log.Fatal] and [log.Fatalf]: print, then [os.Exit(1)]. *)
Definition log_Fatalf {S A} (format : string) (args : list arg) : M S A :=
  emit (Log format args) ;; exit 1.

(** Run [m] on a receiver [s'] of its own and hand back what became of it. *)
Definition on {S S' A} (s' : S') (m : M S' A) : M S (A * S') :=
  fun s =>
    match m s' with
    | (tr, Ret r) => (tr, Ret (r, s))
    | (tr, Panic msg) => (tr, Panic msg)
    | (tr, Exit code) => (tr, Exit code)
    | (tr, Serving) => (tr, Serving)
    end.

(** [http.ListenAndServe(addr, nil)] either never returns or returns the
    error that stopped it; [serve addr] tells which. *)
Definition http_ListenAndServe {S} (serve : string -> option error)
    (addr : string) : M S error :=
  emit (ListenAndServe addr) ;;
  fun s => match serve addr with
           | Some err => ([], Ret (err, s))
           | None => ([], Serving)
           end.

(** [validateLabelValues] of package [prometheus]: one value per variable
    label, each of them valid UTF-8. *)
Definition validateLabelValues (vals : list string) (expectedNumberOfValues : nat)
    : option error :=
  if negb (length vals =? expectedNumberOfValues)%nat
  then Some "inconsistent label cardinality"%string
  else if negb (forallb ValidString vals)
  then Some "label value is not valid UTF-8"%string
  else None.

(** [prometheus.MustNewConstMetric]: [NewConstMetric] validates the label
    values against the descriptor, and the [Must] variant panics on its
    error. The descriptors of this program are built once, from constant
    names, and carry no error of their own. *)
Definition MustNewConstMetric {S} (d : Desc) (vt : ValueType) (v : float)
    (lvs : list string) : M S Metric :=
  match validateLabelValues lvs (length (variableLabels d)) with
  | Some err => panic err
  | None => ret {| desc := d; valueType := vt; value := v; labelValues := lvs |}
  end.

(** The metrics sent on the channel, in order. *)
Definition sent (tr : list event) : list Metric :=
  omap (fun e => match e with Send m => Some m | _ => None end) tr.

(** The order in which [range] visits a map is unspecified: any enumeration
    of its entries, each once. *)
Record MapRange (V : Type) := {
  range : gmap Z V -> list (Z * V);
  range_perm : forall m, range m ≡ₚ map_to_list m;
}.
Arguments range {V} _ _.
Arguments range_perm {V} _ _.

Definition rangeCanonical {V} : MapRange V :=
  {| range := map_to_list; range_perm := fun m => reflexivity (map_to_list m) |}.

(** An order that visits the entries of [cache] as [seen] lists them. *)
Definition rangeAs {V} `{EqDecision V} (cache : gmap Z V) (seen : list (Z * V))
    (Hseen : seen ≡ₚ map_to_list cache) : MapRange V :=
  {| range := fun m => if decide (m = cache) then seen else map_to_list m;
     range_perm := fun m =>
       match decide (m = cache) as d
         return (if d then seen else map_to_list m) ≡ₚ map_to_list m with
       | left Heq => eq_rect_r (fun m => seen ≡ₚ map_to_list m) Hseen Heq
       | right _ => reflexivity (map_to_list m)
       end |}.

(** ** The cached exporter *)

Module Cached.

(** [CachedProcess]: the handle and the name resolved at refresh time. *)
Record CachedProcess := {
  Proc : process.Process;
  Name : string;
}.

Record ProcessCollector := {
  targetNames : list string;
  cachedProcs : gmap Z CachedProcess;   (* PID -> process *)
  up : Desc;
  cpuUser : Desc;
  cpuSystem : Desc;
  memoryRSS : Desc;
  memoryVMS : Desc;
  numThreads : Desc;
  openFDs : Desc;
  startTime : Desc;
}.

Definition NewProcessCollector (names : list string) : ProcessCollector := {|
  targetNames := names;
  cachedProcs := ∅;
  up := NewDesc "process_up" "Whether the process is running (1) or not (0)."
          ["process_name"; "pid"]%string;
  cpuUser := NewDesc "process_cpu_user_seconds_total"
          "Total user CPU time spent in seconds." ["process_name"; "pid"]%string;
  cpuSystem := NewDesc "process_cpu_system_seconds_total"
          "Total system CPU time spent in seconds." ["process_name"; "pid"]%string;
  memoryRSS := NewDesc "process_memory_rss_bytes"
          "Resident memory size in bytes." ["process_name"; "pid"]%string;
  memoryVMS := NewDesc "process_memory_vms_bytes"
          "Virtual memory size in bytes." ["process_name"; "pid"]%string;
  numThreads := NewDesc "process_num_threads"
          "Total number of threads." ["process_name"; "pid"]%string;
  openFDs := NewDesc "process_open_fds"
          "Number of open file descriptors." ["process_name"; "pid"]%string;
  startTime := NewDesc "process_start_time_seconds"
          "Start time of the process since unix epoch in seconds."
          ["process_name"; "pid"]%string;
|}.

(** The assignment [c.cachedProcs = m]. *)
Definition setCachedProcs (c : ProcessCollector) (m : gmap Z CachedProcess)
    : ProcessCollector := {|
  targetNames := targetNames c;
  cachedProcs := m;
  up := up c; cpuUser := cpuUser c; cpuSystem := cpuSystem c;
  memoryRSS := memoryRSS c; memoryVMS := memoryVMS c;
  numThreads := numThreads c; openFDs := openFDs c; startTime := startTime c;
|}.

Fixpoint isTargetIn (targets : list string) (procName : string) : bool :=
  match targets with
  | [] => false
  | target :: rest =>
      if Contains procName target then true else isTargetIn rest procName
  end.

Definition isTarget (c : ProcessCollector) (procName : string) : bool :=
  isTargetIn (targetNames c) procName.

(** One turn of the loop of [refreshProcessCache] over [allProcs]. *)
Definition scanStep (c : ProcessCollector) (os : process.OS)
    (newCache : gmap Z CachedProcess) (p : process.Process)
    : gmap Z CachedProcess :=
  match process.Name os p with
  | Err _ => newCache                               (* continue *)
  | Ok name =>
      if isTarget c name
      then <[process.Pid p := {| Proc := p; Name := name |}]> newCache
      else newCache
  end.

(** [refreshProcessCache]. The write lock around the final assignment has
    no effect on a run of this function alone; it is part of the
    interleaved runs of [Module Interleaving]. *)
Definition refreshProcessCache (os : process.OS) : M ProcessCollector unit :=
  match process.Processes os with
  | Err err => log_Printf "Error scanning processes: %v" [AErr err]  (* return *)
  | Ok allProcs =>
      do c <- get;
      let newCache := fold_left (scanStep c os) allProcs ∅ in
      put (setCachedProcs c newCache)
  end.

(** [StartCacheUpdater]: one refresh at once, then the ticker and the
    goroutine that refreshes on every tick. [time.NewTicker] panics on a
    non-positive interval. *)
Definition StartCacheUpdater (os : process.OS) (interval : Z)
    : M ProcessCollector unit :=
  refreshProcessCache os ;;
  if interval <=? 0 then panic "non-positive interval for NewTicker"
  else emit (Spawn interval).

Definition Describe (c : ProcessCollector) : list Desc :=
  [up c; cpuUser c; cpuSystem c; memoryRSS c; memoryVMS c; numThreads c;
   openFDs c; startTime c].

(** [ch <- prometheus.MustNewConstMetric(...)]. *)
Definition sendMetric (d : Desc) (vt : ValueType) (v : float)
    (lvs : list string) : M ProcessCollector unit :=
  do m <- MustNewConstMetric d vt v lvs; emit (Send m).

(** The body of the loop of [Collect] over [targets]. *)
Definition collectTarget (os : process.OS) (target : CachedProcess)
    : M ProcessCollector unit :=
  do c <- get;
  let p := Proc target in
  let name := Name target in
  let pidStr := Itoa (process.Pid p) in
  match process.Times os p with
  | Err _ => ret tt                                  (* continue *)
  | Ok times =>
      sendMetric (cpuUser c) CounterValue (process.User times) [name; pidStr] ;;
      sendMetric (cpuSystem c) CounterValue (process.System times) [name; pidStr] ;;
      match process.MemoryInfo os p with
      | Ok mem =>
          sendMetric (memoryRSS c) GaugeValue (float64 (process.RSS mem))
            [name; pidStr] ;;
          sendMetric (memoryVMS c) GaugeValue (float64 (process.VMS mem))
            [name; pidStr]
      | Err _ => ret tt
      end ;;
      match process.NumThreads os p with
      | Ok n => sendMetric (numThreads c) GaugeValue (float64 n) [name; pidStr]
      | Err _ => ret tt
      end ;;
      match process.NumFDs os p with
      | Ok fds => sendMetric (openFDs c) GaugeValue (float64 fds) [name; pidStr]
      | Err _ => ret tt
      end ;;
      match process.CreateTime os p with
      | Ok createTime =>
          sendMetric (startTime c) GaugeValue (float64 createTime / 1000)%float
            [name; pidStr]
      | Err _ => ret tt
      end ;;
      sendMetric (up c) GaugeValue 1%float [name; pidStr]
  end.

(** [Collect]: copy the cached entries (under the read lock), then query
    each of them. *)
Definition Collect (rt : MapRange CachedProcess) (os : process.OS)
    : M ProcessCollector unit :=
  do c <- get;
  let targets := (range rt (cachedProcs c)).*2 in
  forEach targets (collectTarget os).

Record Flags := {
  addr : string;
  procNames : string;
  refreshInterval : Z;     (* time.Duration, nanoseconds *)
}.

Definition main (fl : Flags) (os : process.OS) (serve : string -> option error)
    : M unit unit :=
  if String.eqb (procNames fl) ""
  then log_Fatalf "Please provide -names (e.g., -names=nginx,mysql)" []
  else
    let targetList := Split (procNames fl) "," in
    do started <- on (NewProcessCollector targetList)
                     (StartCacheUpdater os (refreshInterval fl));
    let collector := started.2 in
    emit (Register (Describe collector)) ;;
    emit (Handle "/metrics") ;;
    log_Printf "Starting Optimized Process Exporter on %s" [AStr (addr fl)] ;;
    log_Printf "Monitoring: %v" [AStrs targetList] ;;
    log_Printf "Process list refresh interval: %v" [ADuration (refreshInterval fl)] ;;
    do err <- http_ListenAndServe serve (addr fl);
    log_Fatalf "Error starting server: %v" [AErr err].

End Cached.

Global Instance Process_eq_dec : EqDecision process.Process.
Proof. solve_decision. Defined.

Global Instance CachedProcess_eq_dec : EqDecision Cached.CachedProcess.
Proof. solve_decision. Defined.

(** ** The node-process exporter *)

Module NodeProcess.

Definition namespace : string := "node".
Definition subsystem : string := "process".

Definition processLabels : list string := ["name"; "pid"; "cmd"; "user"]%string.

Record ProcessCollector := {
  CPU : Desc;
  Memory : Desc;
  OpenFiles : Desc;
  ReadBytesTotal : Desc;
  WriteBytesTotal : Desc;
  includeNames : gset string;     (* map[string]struct{} *)
}.

Definition NewProcessCollector (includeNames : gset string) : ProcessCollector := {|
  CPU := NewDesc (BuildFQName namespace subsystem "cpu_usage_percent")
           "Process CPU usage percentage." processLabels;
  Memory := NewDesc (BuildFQName namespace subsystem "memory_usage_percent")
           "Process memory usage percentage." processLabels;
  OpenFiles := NewDesc (BuildFQName namespace subsystem "open_files_count")
           "Number of open files by the process." processLabels;
  ReadBytesTotal := NewDesc (BuildFQName namespace subsystem "read_bytes_total")
           "Total number of bytes read by the process." processLabels;
  WriteBytesTotal := NewDesc (BuildFQName namespace subsystem "write_bytes_total")
           "Total number of bytes written by the process." processLabels;
  includeNames := includeNames;
|}.

Definition Describe (pc : ProcessCollector) : list Desc :=
  [CPU pc; Memory pc; OpenFiles pc; ReadBytesTotal pc; WriteBytesTotal pc].

(** [getProcMemoryPercent]:
    process memory usage = (resident memory / total physical memory) * 100. *)
Definition getProcMemoryPercent (os : process.OS) (proc : process.Process)
    : result float :=
  match process.MemoryInfo os proc with
  | Err err => Err err
  | Ok procMem =>
      match process.VirtualMemory os with
      | Err err => Err err
      | Ok nodeMem =>
          Ok ((float64 (process.RSS procMem) / float64 (process.Total nodeMem))
              * 100)%float
      end
  end.

Definition sendMetric (d : Desc) (vt : ValueType) (v : float)
    (lvs : list string) : M ProcessCollector unit :=
  do m <- MustNewConstMetric d vt v lvs; emit (Send m).

Record Flags := {
  namesFlag : string;
  addrFlag : string;
}.

Section WithUnicode.
Context `{Unicode}.

Definition normalizeName (n : string) : string :=
  let s := ToLower n in
  if HasSuffix s ".exe" then TrimSuffix s ".exe" else s.

(** The name filter of [Collect]: a process is passed over exactly when
    the set of names is not empty and its normalized name is not in it. *)
Definition matches (pc : ProcessCollector) (name : string) : bool :=
  if (0 <? size (includeNames pc))%nat
  then bool_decide (normalizeName name ∈ includeNames pc)
  else true.

(** The body of the loop of [Collect] over [processes]. *)
Definition collectProc (os : process.OS) (proc : process.Process)
    : M ProcessCollector unit :=
  do pc <- get;
  let pid := process.Pid proc in
  match process.Name os proc with
  | Err err =>
      log_Printf "Failed to get name for PID %d, err: %v" [AInt pid; AErr err]
  | Ok name =>
      if negb (matches pc name) then ret tt           (* continue *)
      else
        do cmdline <-
          match process.Cmdline os proc with
          | Ok cmdline => ret cmdline
          | Err err =>
              log_Printf "Failed to get cmdline for PID %d (%s), err: %v"
                [AInt pid; AStr name; AErr err] ;;
              ret ""%string
          end;
        do user <-
          match process.Username os proc with
          | Ok user => ret user
          | Err err =>
              log_Printf "Failed to get username for PID %d (%s), err: %v"
                [AInt pid; AStr name; AErr err] ;;
              ret "unknown"%string
          end;
        let labelValues := [name; Itoa pid; cmdline; user] in
        match process.CPUPercent os proc with
        | Ok cpuPercent =>
            if (0 <? cpuPercent)%float
            then sendMetric (CPU pc) GaugeValue cpuPercent labelValues
            else ret tt
        | Err err =>
            log_Printf "Failed to get CPU usage for PID %d (%s), err: %v"
              [AInt pid; AStr name; AErr err]
        end ;;
        match getProcMemoryPercent os proc with
        | Ok memPercent =>
            if (0 <? memPercent)%float
            then sendMetric (Memory pc) GaugeValue memPercent labelValues
            else ret tt
        | Err err =>
            log_Printf "Failed to get memory usage for PID %d (%s), err: %v"
              [AInt pid; AStr name; AErr err]
        end ;;
        match process.OpenFiles os proc with
        | Ok openFiles =>
            let count := Z.of_nat (length openFiles) in
            if 0 <? count
            then sendMetric (OpenFiles pc) GaugeValue (float64 count) labelValues
            else ret tt
        | Err err =>
            log_Printf "Failed to get open files for PID %d (%s), err: %v"
              [AInt pid; AStr name; AErr err]
        end ;;
        match process.IOCounters os proc with
        | Ok ioCounters =>
            sendMetric (ReadBytesTotal pc) CounterValue
              (float64 (process.ReadBytes ioCounters)) labelValues ;;
            sendMetric (WriteBytesTotal pc) CounterValue
              (float64 (process.WriteBytes ioCounters)) labelValues
        | Err err =>
            log_Printf "Failed to get IO counters for PID %d (%s), err: %v"
              [AInt pid; AStr name; AErr err]
        end
  end.

Definition Collect (os : process.OS) : M ProcessCollector unit :=
  match process.Processes os with
  | Err err => log_Printf "Failed to get processes: %v" [AErr err]   (* return *)
  | Ok processes => forEach processes (collectProc os)
  end.

(** One turn of the loop of [main] over the comma-separated parts. *)
Definition includeStep (include : gset string) (p : string) : gset string :=
  let t := TrimSpace p in
  if String.eqb t "" then include              (* continue *)
  else {[ normalizeName t ]} ∪ include.

(** The set [include] that [main] builds from the [-names] flag. *)
Definition includeOf (names : string) : gset string :=
  if negb (String.eqb names "")
  then fold_left includeStep (Split names ",") ∅
  else ∅.

Definition main (fl : Flags) (serve : string -> option error) : M unit unit :=
  let include := includeOf (namesFlag fl) in
  let procCollector := NewProcessCollector include in
  emit (Register (Describe procCollector)) ;;
  emit (Handle "/metrics") ;;
  let addr := addrFlag fl in
  log_Printf "Service started! Listening on %s" [AStr addr] ;;
  do err <- http_ListenAndServe serve addr;
  log_Fatalf "Failed to start HTTP server: %v" [AErr err].

End WithUnicode.

End NodeProcess.

(** ** A refresh cycle and a scrape running side by side

    [refreshProcessCache] (one goroutine) and the locked section of [Collect]
    (another) are taken apart into their statements; a run is any
    interleaving of them. Maps are objects on a heap, [c.cachedProcs] holds a
    reference to one, and [range] visits the entries of the object it was
    handed one at a time, in any order. *)

Module Interleaving.
Import Cached.

Abbreviation loc := nat.

(** Where the refresher is: the statement it executes next. *)
Inductive refresher :=
  | REnumerate                                        (* [process.Processes()] *)
  | RMake (allProcs : list process.Process)           (* [newCache := make(...)] *)
  | RFilter (todo : list process.Process) (newCache : loc)   (* the loop *)
  | RLock (newCache : loc)                            (* [c.rwMutex.Lock()] *)
  | RAssign (newCache : loc)                          (* [c.cachedProcs = newCache] *)
  | RUnlock                                           (* [c.rwMutex.Unlock()] *)
  | RReturned.

(** Where the scraper is. [seen] lists the entries [range] has visited and
    appended to [targets] so far. *)
Inductive scraper :=
  | SRLock                                            (* [c.rwMutex.RLock()] *)
  | SMake                                             (* [make], [range c.cachedProcs] *)
  | SRange (m : loc) (seen : list (Z * CachedProcess)) (* the loop *)
  | SRUnlock (seen : list (Z * CachedProcess))        (* [c.rwMutex.RUnlock()] *)
  | SQuery (targets : list CachedProcess).            (* the second loop *)

Record state := {
  heap : gmap loc (gmap Z CachedProcess);
  cachedProcsRef : loc;             (* the field [c.cachedProcs] *)
  writer : bool;                    (* [rwMutex] is write-locked *)
  readers : nat;                    (* number of read locks held *)
  rpc : refresher;
  spc : scraper;
}.

Definition setR (s : state) (r : refresher) : state :=
  {| heap := heap s; cachedProcsRef := cachedProcsRef s; writer := writer s;
     readers := readers s; rpc := r; spc := spc s |}.

Definition setS (s : state) (p : scraper) : state :=
  {| heap := heap s; cachedProcsRef := cachedProcsRef s; writer := writer s;
     readers := readers s; rpc := rpc s; spc := p |}.

Definition setHeap (s : state) (h : gmap loc (gmap Z CachedProcess)) : state :=
  {| heap := h; cachedProcsRef := cachedProcsRef s; writer := writer s;
     readers := readers s; rpc := rpc s; spc := spc s |}.

Definition setRef (s : state) (l : loc) : state :=
  {| heap := heap s; cachedProcsRef := l; writer := writer s;
     readers := readers s; rpc := rpc s; spc := spc s |}.

Definition setLock (s : state) (w : bool) (n : nat) : state :=
  {| heap := heap s; cachedProcsRef := cachedProcsRef s; writer := w;
     readers := n; rpc := rpc s; spc := spc s |}.

Inductive step (c : ProcessCollector) (os : process.OS) : state -> state -> Prop :=
  (* the refresher *)
  | step_enumerate_err s err :
      rpc s = REnumerate -> process.Processes os = Err err ->
      step c os s (setR s RReturned)
  | step_enumerate s allProcs :
      rpc s = REnumerate -> process.Processes os = Ok allProcs ->
      step c os s (setR s (RMake allProcs))
  | step_make s allProcs :
      rpc s = RMake allProcs ->
      let l := fresh (dom (heap s)) in
      step c os s (setR (setHeap s (<[l := ∅]> (heap s))) (RFilter allProcs l))
  | step_filter s p todo l newCache :
      rpc s = RFilter (p :: todo) l -> heap s !! l = Some newCache ->
      step c os s
        (setR (setHeap s (<[l := scanStep c os newCache p]> (heap s)))
              (RFilter todo l))
  | step_filter_end s l :
      rpc s = RFilter [] l ->
      step c os s (setR s (RLock l))
  | step_lock s l :
      rpc s = RLock l -> writer s = false -> readers s = 0%nat ->
      step c os s (setR (setLock s true 0) (RAssign l))
  | step_assign s l :
      rpc s = RAssign l ->
      step c os s (setR (setRef s l) RUnlock)
  | step_unlock s :
      rpc s = RUnlock ->
      step c os s (setR (setLock s false (readers s)) RReturned)
  (* the scraper *)
  | step_rlock s :
      spc s = SRLock -> writer s = false ->
      step c os s (setS (setLock s false (S (readers s))) SMake)
  | step_range_begin s :
      spc s = SMake ->
      step c os s (setS s (SRange (cachedProcsRef s) []))
  | step_range_next s m seen cache pid cached :
      spc s = SRange m seen -> heap s !! m = Some cache ->
      cache !! pid = Some cached -> pid ∉ seen.*1 ->
      step c os s (setS s (SRange m (seen ++ [(pid, cached)])))
  | step_range_end s m seen cache :
      spc s = SRange m seen -> heap s !! m = Some cache ->
      (forall pid, is_Some (cache !! pid) -> pid ∈ seen.*1) ->
      step c os s (setS s (SRUnlock seen))
  | step_runlock s seen :
      spc s = SRUnlock seen ->
      step c os s (setS (setLock s (writer s) (pred (readers s))) (SQuery seen.*2)).

(** Both goroutines about to start, the cache [pre] current, the lock free. *)
Definition init (pre : gmap Z CachedProcess) : state :=
  {| heap := {[ 0%nat := pre ]}; cachedProcsRef := 0%nat; writer := false;
     readers := 0; rpc := REnumerate; spc := SRLock |}.

Definition reachable (c : ProcessCollector) (os : process.OS)
    (pre : gmap Z CachedProcess) (s : state) : Prop :=
  rtc (step c os) (init pre) s.

End Interleaving.

(** ** What the theorems speak of *)

(** [t] occurs in [s]: the substring policy of the Name Matcher. *)
Definition occursIn (t s : string) : Prop :=
  exists pre post, s = (pre +:+ t +:+ post)%string.

(** The metrics among [ms] that belong to the descriptor [d]. *)
Definition sentFor (d : Desc) (ms : list Metric) : list Metric :=
  filter (fun m => fqName (desc m) = fqName d) ms.

(** The [pid] label of a metric of the cached exporter. *)
Definition pidLabel (m : Metric) : option string := labelValues m !! 1%nat.

(** [m] run on [s] leaves the trace [tr], returns, and leaves [s] as it was. *)
Definition runs {S} (m : M S unit) (s : S) (tr : list event) : Prop :=
  m s = (tr, Ret (tt, s)).

(** [m] run on [s] returns, leaves [s] as it was, and sends [ms]. *)
Definition sends {S} (m : M S unit) (s : S) (ms : list Metric) : Prop :=
  exists tr, runs m s tr /\ sent tr = ms.

Section CachedNotions.
Import Cached.
Variables (c : ProcessCollector) (os : process.OS).

(** A process the scan keeps: its name resolves and is a target. *)
Definition kept (p : process.Process) : Prop :=
  exists name, process.Name os p = Ok name /\ isTarget c name = true.

(** Every entry is stored under the PID of its handle, with the name the
    handle resolved to. *)
Definition entries_ok (m : gmap Z CachedProcess) : Prop :=
  forall pid e, m !! pid = Some e ->
    process.Pid (Proc e) = pid /\ process.Name os (Proc e) = Ok (Name e)
    /\ isTarget c (Name e) = true.

(** Every descriptor of the collector has the two labels
    [process_name] and [pid]. *)
Definition twoLabels : Prop :=
  Forall (fun d => length (variableLabels d) = 2%nat) (Describe c).

Definition whenOk {A} (r : result A) (f : A -> list Metric) : list Metric :=
  match r with Ok a => f a | Err _ => [] end.

Definition constMetric (d : Desc) (vt : ValueType) (v : float)
    (target : CachedProcess) : Metric :=
  {| desc := d; valueType := vt; value := v;
     labelValues := [Name target; Itoa (process.Pid (Proc target))] |}.

(** The metrics one turn of the loop of [Collect] sends, as a list. *)
Definition targetSamples (target : CachedProcess) : list Metric :=
  let p := Proc target in
  whenOk (process.Times os p) (fun times =>
    [constMetric (cpuUser c) CounterValue (process.User times) target;
     constMetric (cpuSystem c) CounterValue (process.System times) target]
    ++ whenOk (process.MemoryInfo os p) (fun mem =>
         [constMetric (memoryRSS c) GaugeValue (float64 (process.RSS mem)) target;
          constMetric (memoryVMS c) GaugeValue (float64 (process.VMS mem)) target])
    ++ whenOk (process.NumThreads os p) (fun n =>
         [constMetric (numThreads c) GaugeValue (float64 n) target])
    ++ whenOk (process.NumFDs os p) (fun fds =>
         [constMetric (openFDs c) GaugeValue (float64 fds) target])
    ++ whenOk (process.CreateTime os p) (fun createTime =>
         [constMetric (startTime c) GaugeValue (float64 createTime / 1000)%float
            target])
    ++ [constMetric (up c) GaugeValue 1%float target]).

End CachedNotions.

Section NodeProcessNotions.
Import NodeProcess.
Variables (pc : ProcessCollector) (os : process.OS) (proc : process.Process).

(** Every descriptor of the collector has the four labels of
    [processLabels]. *)
Definition fourLabels : Prop :=
  Forall (fun d => length (variableLabels d) = 4%nat) (Describe pc).

(** The label values [Collect] gives the samples of a process called
    [name]: an unreadable command line is left empty, an unreadable user is
    [unknown]. *)
Definition labelValuesOf (name : string) : list string :=
  [name; Itoa (process.Pid proc);
   match process.Cmdline os proc with Ok cmdline => cmdline | Err _ => "" end;
   match process.Username os proc with Ok user => user | Err _ => "unknown" end
  ]%string.

Definition gauge (d : Desc) (v : float) (name : string) : Metric :=
  {| desc := d; valueType := GaugeValue; value := v;
     labelValues := labelValuesOf name |}.

Definition counter (d : Desc) (v : float) (name : string) : Metric :=
  {| desc := d; valueType := CounterValue; value := v;
     labelValues := labelValuesOf name |}.

(** The samples of the four statistics of a process, each from its own
    query. *)
Definition cpuSamples (name : string) : list Metric :=
  match process.CPUPercent os proc with
  | Ok v => if (0 <? v)%float then [gauge (CPU pc) v name] else []
  | Err _ => []
  end.

Definition memorySamples (name : string) : list Metric :=
  match getProcMemoryPercent os proc with
  | Ok v => if (0 <? v)%float then [gauge (Memory pc) v name] else []
  | Err _ => []
  end.

Definition openFilesSamples (name : string) : list Metric :=
  match process.OpenFiles os proc with
  | Ok openFiles =>
      if 0 <? Z.of_nat (length openFiles)
      then [gauge (OpenFiles pc) (float64 (Z.of_nat (length openFiles))) name]
      else []
  | Err _ => []
  end.

Definition ioSamples (name : string) : list Metric :=
  match process.IOCounters os proc with
  | Ok io =>
      [counter (ReadBytesTotal pc) (float64 (process.ReadBytes io)) name;
       counter (WriteBytesTotal pc) (float64 (process.WriteBytes io)) name]
  | Err _ => []
  end.

End NodeProcessNotions.

Section InterleavingNotions.
Import Cached Interleaving.
Variables (c : ProcessCollector) (os : process.OS) (pre : gmap Z CachedProcess).

(** The map the refresher has built after scanning [scanned]. *)
Definition built (scanned : list process.Process) : gmap Z CachedProcess :=
  fold_left (scanStep c os) scanned ∅.

(** [cache] is what the refresh cycle publishes. *)
Definition published (cache : gmap Z CachedProcess) : Prop :=
  exists allProcs, process.Processes os = Ok allProcs /\ cache = built allProcs.

(** What holds of the refresher at each of its statements: until the
    assignment the field refers to the old map, and the map under
    construction is another object. *)
Definition refresher_inv (s : state) : Prop :=
  match rpc s with
  | REnumerate => cachedProcsRef s = 0%nat
  | RMake allProcs =>
      cachedProcsRef s = 0%nat /\ process.Processes os = Ok allProcs
  | RFilter todo l =>
      cachedProcsRef s = 0%nat /\ l <> 0%nat /\
      exists scanned, process.Processes os = Ok (scanned ++ todo) /\
                      heap s !! l = Some (built scanned)
  | RLock l | RAssign l =>
      cachedProcsRef s = 0%nat /\ l <> 0%nat /\
      exists cache, heap s !! l = Some cache /\ published cache
  | RUnlock | RReturned =>
      cachedProcsRef s = 0%nat \/
      exists cache, heap s !! cachedProcsRef s = Some cache /\ published cache
  end.

(** What holds of the scraper: the map it ranges over is the old one or the
    published one, and no longer written to. *)
Definition scraper_inv (s : state) : Prop :=
  match spc s with
  | SRLock | SMake => True
  | SRange m seen =>
      exists cache,
        heap s !! m = Some cache /\
        (m = 0%nat \/
         (m = cachedProcsRef s /\ (rpc s = RUnlock \/ rpc s = RReturned))) /\
        NoDup seen.*1 /\
        forall pid cached, (pid, cached) ∈ seen -> cache !! pid = Some cached
  | SRUnlock seen =>
      exists cache, (cache = pre \/ published cache) /\ seen ≡ₚ map_to_list cache
  | SQuery targets =>
      exists cache seen, (cache = pre \/ published cache) /\
                         seen ≡ₚ map_to_list cache /\ targets = seen.*2
  end.

Definition inv (s : state) : Prop :=
  heap s !! 0%nat = Some pre /\ refresher_inv s /\ scraper_inv s.

(** The scraper is inside its locked section. *)
Definition inSection (p : scraper) : bool :=
  match p with
  | SMake | SRange _ _ | SRUnlock _ => true
  | SRLock | SQuery _ => false
  end.

(** The refresher is inside its locked section. *)
Definition holdsWrite (r : refresher) : bool :=
  match r with
  | RAssign _ | RUnlock => true
  | _ => false
  end.

(** The lock says who is inside, and a writer is inside alone. *)
Definition lock_inv (s : state) : Prop :=
  writer s = holdsWrite (rpc s) /\
  readers s = (if inSection (spc s) then 1%nat else 0%nat) /\
  (writer s = true -> readers s = 0%nat).

End InterleavingNotions.

(** ** Sample inputs *)

Definition pid7 : process.Process := {| process.Pid := 7 |}.

Definition nginx7 : Cached.CachedProcess :=
  {| Cached.Proc := pid7; Cached.Name := "nginx" |}.

(** Process 7 cached under a name that is not valid UTF-8. *)
Definition badName7 : Cached.CachedProcess :=
  {| Cached.Proc := pid7;
     Cached.Name := ("nginx" +:+ String (ascii_of_nat 0xFF) "")%string |}.

(** A collector watching [nginx] with process 7 in its cache. *)
Definition watching7 : Cached.ProcessCollector :=
  Cached.setCachedProcs (Cached.NewProcessCollector ["nginx"%string]) {[ 7 := nginx7 ]}.

(** Every query answers, for every handle. *)
Definition osRunning : process.OS := {|
  process.Processes := Ok [pid7];
  process.Name := fun _ => Ok "nginx"%string;
  process.Cmdline := fun _ => Ok "nginx -g daemon off;"%string;
  process.Username := fun _ => Ok "www-data"%string;
  process.Times := fun _ => Ok {| process.User := 2; process.System := 1 |};
  process.CPUPercent := fun _ => Ok 0%float;
  process.MemoryInfo := fun _ =>
    Ok {| process.RSS := 200 * 1024 * 1024; process.VMS := 512 * 1024 * 1024 |};
  process.NumThreads := fun _ => Ok 4;
  process.NumFDs := fun _ => Ok 12;
  process.CreateTime := fun _ => Ok 1700000000000;
  process.OpenFiles := fun _ => Ok [];
  process.IOCounters := fun _ =>
    Ok {| process.ReadBytes := 0; process.WriteBytes := 0 |};
  process.VirtualMemory := Ok {| process.Total := 2000 * 1024 * 1024 |};
|}.


(** No process is left: the table is empty and every query fails. *)
Definition osGone : process.OS := {|
  process.Processes := Ok [];
  process.Name := fun _ => Err "no such process"%string;
  process.Cmdline := fun _ => Err "no such process"%string;
  process.Username := fun _ => Err "no such process"%string;
  process.Times := fun _ => Err "no such process"%string;
  process.CPUPercent := fun _ => Err "no such process"%string;
  process.MemoryInfo := fun _ => Err "no such process"%string;
  process.NumThreads := fun _ => Err "no such process"%string;
  process.NumFDs := fun _ => Err "no such process"%string;
  process.CreateTime := fun _ => Err "no such process"%string;
  process.OpenFiles := fun _ => Err "no such process"%string;
  process.IOCounters := fun _ => Err "no such process"%string;
  process.VirtualMemory := process.VirtualMemory osRunning;
|}.


(** The process table cannot be read. *)
Definition osNoTable : process.OS := {|
  process.Processes := Err "too many open files"%string;
  process.Name := process.Name osRunning;
  process.Cmdline := process.Cmdline osRunning;
  process.Username := process.Username osRunning;
  process.Times := process.Times osRunning;
  process.CPUPercent := process.CPUPercent osRunning;
  process.MemoryInfo := process.MemoryInfo osRunning;
  process.NumThreads := process.NumThreads osRunning;
  process.NumFDs := process.NumFDs osRunning;
  process.CreateTime := process.CreateTime osRunning;
  process.OpenFiles := process.OpenFiles osRunning;
  process.IOCounters := process.IOCounters osRunning;
  process.VirtualMemory := process.VirtualMemory osRunning;
|}.

(** The state after a refresh cycle that found no process and a scrape
    that started before the new cache was assigned. *)
Definition afterBoth : Interleaving.state := {|
  Interleaving.heap := {[ 0%nat := {[ 7 := nginx7 ]}; 1%nat := ∅ ]};
  Interleaving.cachedProcsRef := 1%nat;
  Interleaving.writer := false;
  Interleaving.readers := 0;
  Interleaving.rpc := Interleaving.RReturned;
  Interleaving.spc := Interleaving.SQuery [nginx7];
|}.

(** ** The goroutine of [StartCacheUpdater]

    What the [select] of the loop receives, in order: a tick of the ticker,
    with the state of the system at that moment, or the cancellation of the
    context. *)

Inductive signal :=
  | Tick (os : process.OS)            (* [<-ticker.C] *)
  | Done.                             (* [<-ctx.Done()] *)

(** Where the goroutine is once it has served the signals observed so far,
    and the collector as it is then. *)
Inductive updater :=
  | Waiting (c : Cached.ProcessCollector)   (* blocked in the [select] *)
  | Stopped (c : Cached.ProcessCollector)   (* returned; [ticker.Stop()] has run *)
  | Aborted.                                (* a refresh did not return *)

(** The loop [for { select { ... } }]: a tick is served by a refresh, the
    cancellation by returning, and with no signal left the goroutine waits
    in the [select]. *)
Fixpoint updaterLoop (signals : list signal) (c : Cached.ProcessCollector)
    : list event * updater :=
  match signals with
  | [] => ([], Waiting c)
  | Done :: _ => ([], Stopped c)                             (* return *)
  | Tick os :: rest =>
      match Cached.refreshProcessCache os c with
      | (tr, Ret (_, c')) =>
          let '(tr', u) := updaterLoop rest c' in (tr ++ tr', u)
      | (tr, _) => (tr, Aborted)
      end
  end.

(** The cancellation is among the signals. *)
Definition cancelled (signals : list signal) : bool :=
  existsb (fun s => match s with Done => true | Tick _ => false end) signals.

(** ** More of what the theorems speak of *)

(** The messages logged, in order. *)
Definition logs (tr : list event) : list (string * list arg) :=
  omap (fun e => match e with Log f a => Some (f, a) | _ => None end) tr.

(** [m] run on [s] panics, and has sent nothing before. *)
Definition stops {S} (m : M S unit) (s : S) : Prop :=
  exists tr msg, m s = (tr, Panic msg) /\ sent tr = [].

(** [m] was to send [ms] with label values that are not valid: it returns
    in silence when [ms] is empty, and panics before its first sample when
    it is not. *)
Definition silentOrStops {S} (m : M S unit) (s : S) (ms : list Metric) : Prop :=
  ms = [] /\ sends m s [] \/ ms <> [] /\ stops m s.

(** The series a metric belongs to: the name of its descriptor and its
    label values. *)
Definition series (m : Metric) : string * list string :=
  (fqName (desc m), labelValues m).

(** The states of the system at the ticks received before cancellation. *)
Fixpoint ticksBefore (signals : list signal) : list process.OS :=
  match signals with
  | [] => []
  | Done :: _ => []
  | Tick os :: rest => os :: ticksBefore rest
  end.

(** The samples one turn of the loop of the node-process [Collect] sends. *)
Definition procSamples `{Unicode} (pc : NodeProcess.ProcessCollector)
    (os : process.OS) (proc : process.Process) : list Metric :=
  match process.Name os proc with
  | Err _ => []
  | Ok name =>
      if NodeProcess.matches pc name
      then cpuSamples pc os proc name ++ memorySamples pc os proc name ++
           openFilesSamples pc os proc name ++ ioSamples pc os proc name
      else []
  end.


(** What a refresh cycle writes to the log. *)
Definition scanLog (os : process.OS) : list event :=
  match process.Processes os with
  | Ok _ => []
  | Err err => [Log "Error scanning processes: %v" [AErr err]]
  end.

(** What [main] does after [ListenAndServe] was called, and how it ends. *)
Definition serveLog (format : string) (serve : string -> option error)
    (addr : string) : list event :=
  match serve addr with
  | Some err => [Log format [AErr err]]
  | None => []
  end.

Definition serveOutcome (serve : string -> option error) (addr : string)
    : outcome (unit * unit) :=
  match serve addr with
  | Some _ => Exit 1
  | None => Serving
  end.

(** The descriptors of the cached exporter, each with the value type its
    samples are sent with. *)
Definition sampleKinds (c : Cached.ProcessCollector) : list (Desc * ValueType) :=
  [(Cached.cpuUser c, CounterValue); (Cached.cpuSystem c, CounterValue);
   (Cached.memoryRSS c, GaugeValue); (Cached.memoryVMS c, GaugeValue);
   (Cached.numThreads c, GaugeValue); (Cached.openFDs c, GaugeValue);
   (Cached.startTime c, GaugeValue); (Cached.up c, GaugeValue)].

(** ** The outcome of an interleaved refresh cycle *)

Section RefreshOutcome.
Import Cached Interleaving.
Variables (c : ProcessCollector) (os : process.OS) (pre : gmap Z CachedProcess).

(** The cache one call of [refreshProcessCache] leaves when it runs alone. *)
Definition refreshed : gmap Z CachedProcess :=
  match (refreshProcessCache os (setCachedProcs c pre)).2 with
  | Ret (_, c') => cachedProcs c'
  | _ => pre
  end.

(** Once the refresher has assigned, the field refers to that cache. *)
Definition outcome_inv (s : state) : Prop :=
  match rpc s with
  | RUnlock | RReturned => heap s !! cachedProcsRef s = Some refreshed
  | _ => True
  end.

(** Both goroutines are through: the refresher has returned and the scraper
    has left its locked section. *)
Definition finished (s : state) : Prop :=
  rpc s = RReturned /\ exists targets, spc s = SQuery targets.

End RefreshOutcome.

(** * Theorems *)

(** ** The model on sample inputs *)

Example Split_names : Split "nginx,mysql" "," = ["nginx"; "mysql"]%string.
Proof. reflexivity. Qed.

Example Split_empty : Split "" "," = [""%string].
Proof. reflexivity. Qed.

Example Split_trailing : Split "a,,b," "," = ["a"; ""; "b"; ""]%string.
Proof. reflexivity. Qed.

Example Contains_sample :
  Contains "nginx-worker" "inx" = true /\ Contains "nginx" "Nginx" = false /\
  Contains "" "" = true.
Proof. repeat split. Qed.

Example TrimSuffix_sample :
  TrimSuffix "nginx.exe" ".exe" = "nginx"%string /\
  TrimSuffix ".exe" ".exe" = ""%string /\
  TrimSuffix "exe" ".exe" = "exe"%string.
Proof. repeat split. Qed.

Example ToLower_sample `{Unicode} : ToLower "Nginx.EXE [1]" = "nginx.exe [1]"%string.
Proof. reflexivity. Qed.

Example TrimSpace_sample `{Unicode} : TrimSpace "  a b  " = "a b"%string.
Proof. reflexivity. Qed.

Example Itoa_sample :
  Itoa 0 = "0"%string /\ Itoa (-42) = "-42"%string /\ Itoa 4711 = "4711"%string.
Proof. repeat split. Qed.

Example float64_sample : float64 3 = 3%float /\ float64 (-5) = (-5)%float.
Proof. split; reflexivity. Qed.

Example normalizeName_sample `{Unicode} :
  NodeProcess.normalizeName "Nginx.exe" = "nginx"%string /\
  NodeProcess.normalizeName "a.exe.exe" = "a.exe"%string.
Proof. split; reflexivity. Qed.

Example includeOf_sample `{Unicode} :
  NodeProcess.includeOf " Nginx.exe ,,mysqld" = {[ "nginx"; "mysqld" ]}%string.
Proof. vm_compute. reflexivity. Qed.

(** A scrape of the cached exporter with everything readable. *)
Example Collect_sample :
  sent (Cached.Collect rangeCanonical osRunning watching7).1
  = [constMetric (Cached.cpuUser watching7) CounterValue 2 nginx7;
     constMetric (Cached.cpuSystem watching7) CounterValue 1 nginx7;
     constMetric (Cached.memoryRSS watching7) GaugeValue 209715200 nginx7;
     constMetric (Cached.memoryVMS watching7) GaugeValue 536870912 nginx7;
     constMetric (Cached.numThreads watching7) GaugeValue 4 nginx7;
     constMetric (Cached.openFDs watching7) GaugeValue 12 nginx7;
     constMetric (Cached.startTime watching7) GaugeValue 1700000000 nginx7;
     constMetric (Cached.up watching7) GaugeValue 1 nginx7].
Proof. reflexivity. Qed.

(** A scrape with a cached name that is not valid UTF-8: the first sample
    panics. *)
Example Collect_invalid_name_sample :
  ValidString (Cached.Name badName7) = false /\
  Cached.Collect rangeCanonical osRunning
    (Cached.setCachedProcs (Cached.NewProcessCollector ["nginx"%string])
                           {[ 7 := badName7 ]})
  = ([], Panic "label value is not valid UTF-8").
Proof. split; reflexivity. Qed.

(** The cached exporter started with a name reaches the server loop. *)
Example main_sample :
  Cached.main {| Cached.addr := ":9002"; Cached.procNames := "nginx";
                 Cached.refreshInterval := 30000000000 |} osRunning (fun _ => None) tt
  = ([Spawn 30000000000; Register (Cached.Describe watching7); Handle "/metrics";
      Log "Starting Optimized Process Exporter on %s" [AStr ":9002"];
      Log "Monitoring: %v" [AStrs ["nginx"%string]];
      Log "Process list refresh interval: %v" [ADuration 30000000000];
      ListenAndServe ":9002"], Serving).
Proof. reflexivity. Qed.

(** ** Strings *)

Lemma app_String a (s t : string) : (String a s +:+ t = String a (s +:+ t))%string.
Proof. reflexivity. Qed.

Lemma HasPrefix_spec s p :
  HasPrefix s p = true <-> exists post, s = (p +:+ post)%string.
Proof.
  revert s; induction p as [|a p IH]; intros s.
  - split; [intros _; by exists s | intros _; by destruct s].
  - destruct s as [|b s]; simpl.
    + split; [done | intros [post Hpost]; discriminate].
    + destruct (Ascii.eqb_spec a b) as [->|Hne].
      * rewrite IH. split; intros [post Hpost]; exists post;
          rewrite app_String in *; congruence.
      * split; [done | intros [post Hpost]; rewrite app_String in Hpost; congruence].
Qed.

Lemma Contains_cons b s t :
  Contains (String b s) t = HasPrefix (String b s) t || Contains s t.
Proof. reflexivity. Qed.

Lemma Contains_spec s t : Contains s t = true <-> occursIn t s.
Proof.
  unfold occursIn. induction s as [|b s IH].
  - change (Contains "" t) with (HasPrefix "" t || false).
    rewrite orb_false_r, HasPrefix_spec. split.
    + intros [post Hpost]. by exists ""%string, post.
    + intros [pre [post Hs]]. destruct pre; [by exists post |].
      rewrite app_String in Hs. discriminate.
  - rewrite Contains_cons, orb_true_iff, IH, HasPrefix_spec. split.
    + intros [[post Hpost] | [pre [post Hs]]].
      * by exists ""%string, post.
      * exists (String b pre), post. by rewrite app_String, Hs.
    + intros [[|a pre] [post Hs]].
      * left. by exists post.
      * right. exists pre, post. rewrite app_String in Hs. congruence.
Qed.

Lemma isTargetIn_spec targets name :
  Cached.isTargetIn targets name = true <->
  exists target, target ∈ targets /\ occursIn target name.
Proof.
  induction targets as [|t targets IH]; simpl.
  - split; [done | intros [t [Ht _]]; by apply elem_of_nil in Ht].
  - destruct (Contains name t) eqn:Hc.
    + split; [intros _ | done]. exists t. split; [left | by apply Contains_spec].
    + rewrite IH. split.
      * intros [t' [Hin Hocc]]. exists t'. split; [by right | done].
      * intros [t' [Hin Hocc]]. apply elem_of_cons in Hin as [-> | Hin].
        -- apply Contains_spec in Hocc. congruence.
        -- by exists t'.
Qed.

Lemma length_app_string (s t : string) :
  String.length (s +:+ t) = (String.length s + String.length t)%nat.
Proof. induction s as [|a s IH]; [done |]. rewrite app_String. simpl. by rewrite IH. Qed.

Lemma substring_whole (s : string) : String.substring 0 (String.length s) s = s.
Proof. induction s as [|a s IH]; [done |]. simpl. by rewrite IH. Qed.

Lemma substring_app_l (s t : string) :
  String.substring 0 (String.length s) (s +:+ t) = s.
Proof.
  induction s as [|a s IH]; [by destruct t |]. rewrite app_String. simpl. by rewrite IH.
Qed.

Lemma substring_app_r (s t : string) :
  String.substring (String.length s) (String.length t) (s +:+ t) = t.
Proof.
  induction s as [|a s IH]; [apply substring_whole |]. rewrite app_String. simpl. apply IH.
Qed.

Lemma substring_split (n : nat) (s : string) :
  (n <= String.length s)%nat ->
  s = (String.substring 0 n s +:+ String.substring n (String.length s - n) s)%string.
Proof.
  revert s. induction n as [|n IH]; intros s Hn.
  - rewrite Nat.sub_0_r, substring_whole. by destruct s.
  - destruct s as [|a s]; simpl in *; [lia |].
    rewrite app_String. f_equal. apply IH. lia.
Qed.

Lemma HasSuffix_spec s suffix :
  HasSuffix s suffix = true <-> exists stem, s = (stem +:+ suffix)%string.
Proof.
  unfold HasSuffix. rewrite andb_true_iff, Nat.leb_le, String.eqb_eq. split.
  - intros [Hlen Hsub]. exists (String.substring 0 (String.length s - String.length suffix) s).
    pose proof (substring_split (String.length s - String.length suffix) s) as Heq.
    replace (String.length s - (String.length s - String.length suffix))%nat
      with (String.length suffix) in Heq by lia.
    rewrite Hsub in Heq. apply Heq. lia.
  - intros [stem ->]. rewrite length_app_string. split; [lia |].
    replace (String.length stem + String.length suffix - String.length suffix)%nat
      with (String.length stem) by lia.
    apply substring_app_r.
Qed.

Lemma TrimSuffix_app stem suffix : TrimSuffix (stem +:+ suffix) suffix = stem.
Proof.
  unfold TrimSuffix.
  assert (HasSuffix (stem +:+ suffix) suffix = true) as ->
    by (apply HasSuffix_spec; by exists stem).
  rewrite length_app_string.
  replace (String.length stem + String.length suffix - String.length suffix)%nat
    with (String.length stem) by lia.
  apply substring_app_l.
Qed.

Lemma TrimSuffix_other s suffix :
  (forall stem, s <> (stem +:+ suffix)%string) -> TrimSuffix s suffix = s.
Proof.
  intros Hno. unfold TrimSuffix. destruct (HasSuffix s suffix) eqn:Hs; [| done].
  apply HasSuffix_spec in Hs as [stem ->]. by destruct (Hno stem).
Qed.

(** ** Valid UTF-8 *)

Lemma ValidString_ASCII s : isASCII s = true -> ValidString s = true.
Proof.
  induction s as [|c s IH]; [done |]. cbn [isASCII ValidString].
  intros [-> Hs]%andb_prop. by apply IH.
Qed.

Lemma isASCII_pretty_N_char x : isASCIIbyte (pretty_N_char x) = true.
Proof. unfold pretty_N_char. by repeat case_match. Qed.

Lemma isASCII_pretty_N_go x s :
  isASCII s = true -> isASCII (pretty_N_go x s) = true.
Proof.
  revert s. induction (N.lt_wf_0 x) as [x _ IH]; intros s Hs.
  destruct (decide (x = 0)%N) as [-> | Hx]; [by rewrite pretty_N_go_0 |].
  rewrite pretty_N_go_step by lia. apply IH.
  - apply N.div_lt; lia.
  - cbn [isASCII]. by rewrite isASCII_pretty_N_char.
Qed.

Lemma isASCII_Itoa i : isASCII (Itoa i) = true.
Proof.
  unfold Itoa, pretty, pretty_Z. destruct i as [| p | p]; [done | |].
  - unfold pretty, pretty_positive, pretty, pretty_N.
    case_decide; [done |]. by apply isASCII_pretty_N_go.
  - rewrite app_String. cbn [isASCII]. rewrite andb_true_l.
    change (isASCII (pretty (N.pos p)) = true). unfold pretty, pretty_N.
    case_decide; [done |]. by apply isASCII_pretty_N_go.
Qed.

(** [strconv.Itoa] gives digits and a sign: valid UTF-8. *)
Lemma ValidString_Itoa i : ValidString (Itoa i) = true.
Proof. apply ValidString_ASCII, isASCII_Itoa. Qed.

Example ValidString_sample :
  ValidString "nginx" = true /\
  ValidString (String (ascii_of_nat 0xC3) (String (ascii_of_nat 0xA9) "")) = true /\
  ValidString (String (ascii_of_nat 0xE2)
                 (String (ascii_of_nat 0x82) (String (ascii_of_nat 0xAC) ""))) = true /\
  ValidString ("nginx" +:+ String (ascii_of_nat 0xFF) "") = false /\
  ValidString (String (ascii_of_nat 0xC3) "") = false /\
  ValidString (String (ascii_of_nat 0xC0) (String (ascii_of_nat 0x80) "")) = false /\
  ValidString (String (ascii_of_nat 0xED)
                 (String (ascii_of_nat 0xA0) (String (ascii_of_nat 0x80) ""))) = false.
Proof. repeat split. Qed.

(** ** Running effectful code *)

Lemma runs_ret {S} (s : S) : runs (ret tt) s [].
Proof. reflexivity. Qed.

Lemma runs_bind {S} (m : M S unit) (k : M S unit) (s : S) tr tr' :
  runs m s tr -> runs k s tr' -> runs (m ;; k) s (tr ++ tr').
Proof. unfold runs, bind. intros -> ->. reflexivity. Qed.

Lemma runs_get {S} (k : S -> M S unit) (s : S) tr :
  runs (k s) s tr -> runs (do x <- get; k x) s tr.
Proof. unfold runs, bind, get. intros ->. reflexivity. Qed.

Lemma runs_forEach {S A} (body : A -> M S unit) (f : A -> list event) (s : S) l :
  (forall x, x ∈ l -> runs (body x) s (f x)) ->
  runs (forEach l body) s (flat_map f l).
Proof.
  induction l as [|x l IH]; intros Hbody; simpl; [apply runs_ret |].
  apply runs_bind; [apply Hbody; left | apply IH; intros y Hy; apply Hbody; by right].
Qed.

Lemma sent_Send ms : sent (Send <$> ms) = ms.
Proof. induction ms as [|m ms IH]; simpl; [done | f_equal; exact IH]. Qed.

Lemma sent_app tr tr' : sent (tr ++ tr') = sent tr ++ sent tr'.
Proof. apply omap_app. Qed.

Lemma flat_map_Send {A} (f : A -> list Metric) l :
  flat_map (fun x => Send <$> f x) l = Send <$> flat_map f l.
Proof.
  induction l as [|x l IH]; simpl; [done | by rewrite IH, fmap_app].
Qed.

Lemma logs_Send ms : logs (Send <$> ms) = [].
Proof. induction ms as [|m ms IH]; [done | exact IH]. Qed.

Lemma sent_flat_map {A} (f : A -> list event) l :
  sent (flat_map f l) = flat_map (fun x => sent (f x)) l.
Proof.
  induction l as [|x l IH]; [done |]. simpl. by rewrite sent_app, IH.
Qed.

Lemma logs_app tr tr' : logs (tr ++ tr') = logs tr ++ logs tr'.
Proof. apply omap_app. Qed.

Lemma logs_flat_map {A} (f : A -> list event) l :
  logs (flat_map f l) = flat_map (fun x => logs (f x)) l.
Proof.
  induction l as [|x l IH]; [done |]. simpl. by rewrite logs_app, IH.
Qed.

(** A loop whose turns return or panic runs its turns in order, up to the
    first that panics, if there is one. *)
Lemma forEach_trace {S A} (body : A -> M S unit) (s : S) l :
  (forall x, x ∈ l ->
     (body x s).2 = Ret (tt, s) \/ exists msg, (body x s).2 = Panic msg) ->
  exists k,
    (forEach l body s).1 = flat_map (fun x => (body x s).1) (take k l) /\
    ((forEach l body s).2 = Ret (tt, s) \/
     exists msg, (forEach l body s).2 = Panic msg).
Proof.
  induction l as [|x l IH]; intros Hbody; [exists 0%nat; by split; [| left] |].
  destruct (Hbody x) as [Hx | [msg Hx]]; [by left | |].
  - destruct IH as (k & Htr & Ho); [intros y Hy; apply Hbody; by right |].
    exists (Datatypes.S k). cbn [forEach take flat_map]. unfold bind.
    destruct (body x s) as [tr o]. cbn [snd] in Hx. subst o. cbn [fst].
    destruct (forEach l body s) as [tr' o']. cbn [fst snd] in *.
    by rewrite Htr.
  - exists 1%nat. cbn [forEach take flat_map]. unfold bind.
    destruct (body x s) as [tr o]. cbn [snd] in Hx. subst o. cbn [fst snd].
    rewrite take_0. cbn [flat_map]. rewrite app_nil_r.
    split; [done | right; by exists msg].
Qed.

Lemma forEach_returns {S A} (body : A -> M S unit) (s : S) l :
  (forall x, x ∈ l -> (body x s).2 = Ret (tt, s)) ->
  forEach l body s = (flat_map (fun x => (body x s).1) l, Ret (tt, s)).
Proof.
  induction l as [|x l IH]; intros Hbody; [done |].
  cbn [forEach flat_map]. unfold bind.
  specialize (Hbody x (list_elem_of_here _ _)) as Hx.
  destruct (body x s) as [tr o]. cbn [snd] in Hx. subst o.
  rewrite IH by (intros y Hy; apply Hbody; by right). done.
Qed.


Lemma range_lookup {V} (rt : MapRange V) (m : gmap Z V) pid v :
  (pid, v) ∈ range rt m <-> m !! pid = Some v.
Proof. by rewrite (range_perm rt m), elem_of_map_to_list. Qed.

Lemma range_targets {V} (rt : MapRange V) (m : gmap Z V) v :
  v ∈ (range rt m).*2 -> exists pid, m !! pid = Some v.
Proof.
  intros ([pid v'] & -> & Hin)%list_elem_of_fmap. exists pid. simpl.
  by apply (range_lookup rt).
Qed.

(** ** The cached exporter: refresh *)

Section Refresh.
Import Cached.
Variables (c : ProcessCollector) (os : process.OS).

Lemma scanStep_dom acc p pid :
  pid ∈ dom (scanStep c os acc p) <->
  pid ∈ dom acc \/ (process.Pid p = pid /\ kept c os p).
Proof.
  unfold scanStep, kept. destruct (process.Name os p) as [name|e].
  - destruct (isTarget c name) eqn:Ht.
    + rewrite dom_insert, elem_of_union, elem_of_singleton.
      split; [intros [->|?]; [right; eauto | by left] | intros [?|[<- _]]; auto].
    + split; [by left | intros [?|[_ [n [[= <-] ?]]]]; [done | congruence]].
  - split; [by left | intros [?|[_ [n [? _]]]]; [done | discriminate]].
Qed.

Lemma scan_dom allProcs acc pid :
  pid ∈ dom (fold_left (scanStep c os) allProcs acc) <->
  pid ∈ dom acc \/ exists p, p ∈ allProcs /\ process.Pid p = pid /\ kept c os p.
Proof.
  revert acc; induction allProcs as [|q l IH]; intros acc; simpl.
  - split; [by left | intros [?|[p [Hp _]]]; [done | by apply elem_of_nil in Hp]].
  - rewrite IH, scanStep_dom. split.
    + intros [[?|[? ?]] | [p [? ?]]]; [by left | right; exists q | right; exists p].
      * split; [left | done].
      * split; [by right | done].
    + intros [?|[p [Hin ?]]]; [by left; left |].
      apply elem_of_cons in Hin as [-> | Hin]; [left; by right | right; by exists p].
Qed.

Lemma scanStep_entries acc p : entries_ok c os acc -> entries_ok c os (scanStep c os acc p).
Proof.
  intros Hacc. unfold scanStep.
  destruct (process.Name os p) as [name|e] eqn:Hn; [|done].
  destruct (isTarget c name) eqn:Ht; [|done].
  intros pid e He. destruct (decide (process.Pid p = pid)) as [<-|Hne].
  - rewrite lookup_insert_eq in He. by injection He as <-.
  - rewrite lookup_insert_ne in He by done. by apply Hacc.
Qed.

Lemma scan_entries allProcs acc :
  entries_ok c os acc -> entries_ok c os (fold_left (scanStep c os) allProcs acc).
Proof.
  revert acc; induction allProcs as [|q l IH]; intros acc Hacc; simpl;
    [done | by apply IH, scanStep_entries].
Qed.

End Refresh.

(** Every collector the program runs with is the one [NewProcessCollector]
    built, with some cache assigned: a refresh leaves it so. *)
Lemma refreshProcessCache_shape os names m :
  exists tr m',
    Cached.refreshProcessCache os
      (Cached.setCachedProcs (Cached.NewProcessCollector names) m)
    = (tr, Ret (tt, Cached.setCachedProcs (Cached.NewProcessCollector names) m')).
Proof.
  unfold Cached.refreshProcessCache.
  destruct (process.Processes os) as [allProcs|err]; by eexists _, _.
Qed.

(** C3. When the enumeration of processes fails, [refreshProcessCache] logs
    the error and returns: the collector, and with it the cache, is the one
    it was called on, and the process neither exits nor panics. *)
Theorem refresh_enumeration_failure (os : process.OS) (c : Cached.ProcessCollector)
    (err : error) :
  process.Processes os = Err err ->
  Cached.refreshProcessCache os c
  = ([Log "Error scanning processes: %v" [AErr err]], Ret (tt, c)).
Proof. intros Herr. unfold Cached.refreshProcessCache. by rewrite Herr. Qed.

Lemma refresh_enumeration_failure_witness :
  process.Processes osNoTable = Err "too many open files"%string /\
  Cached.refreshProcessCache osNoTable watching7
  = ([Log "Error scanning processes: %v" [AErr "too many open files"%string]],
     Ret (tt, watching7)).
Proof.
  split; [reflexivity |].
  apply (refresh_enumeration_failure osNoTable watching7 "too many open files").
  reflexivity.
Defined.

(** C4. When the enumeration succeeds, one refresh cycle returns silently
    with a cache that holds exactly the PIDs of the enumerated processes whose
    name resolves and contains one of the target names; each entry carries
    its process and that name. A process whose name does not resolve adds
    nothing. *)
Theorem refresh_cache_exact (os : process.OS) (c : Cached.ProcessCollector)
    (allProcs : list process.Process) :
  process.Processes os = Ok allProcs ->
  exists c',
    Cached.refreshProcessCache os c = ([], Ret (tt, c')) /\
    Cached.targetNames c' = Cached.targetNames c /\
    (forall pid,
       pid ∈ dom (Cached.cachedProcs c') <->
       exists p name,
         p ∈ allProcs /\ process.Pid p = pid /\ process.Name os p = Ok name /\
         exists target, target ∈ Cached.targetNames c /\ occursIn target name) /\
    (forall pid e,
       Cached.cachedProcs c' !! pid = Some e ->
       process.Pid (Cached.Proc e) = pid /\
       process.Name os (Cached.Proc e) = Ok (Cached.Name e)).
Proof.
  intros Hok.
  exists (Cached.setCachedProcs c (fold_left (Cached.scanStep c os) allProcs ∅)).
  split; [unfold Cached.refreshProcessCache; by rewrite Hok |].
  split; [done |]. simpl. split.
  - intros pid. rewrite scan_dom, dom_empty, elem_of_empty. split.
    + intros [[] | [p [Hin [Hpid [name [Hname Ht]]]]]].
      exists p, name. repeat split; try done. by apply isTargetIn_spec.
    + intros [p [name [Hin [Hpid [Hname Ht]]]]]. right. exists p.
      repeat split; try done. exists name. split; [done | by apply isTargetIn_spec].
  - intros pid e He.
    destruct (scan_entries c os allProcs ∅) with pid e as [? [? ?]]; [| done | done].
    intros ? ? Hl. by rewrite lookup_empty in Hl.
Qed.

Lemma refresh_cache_exact_witness :
  process.Processes osRunning = Ok [pid7] /\
  exists c',
    Cached.refreshProcessCache osRunning (Cached.NewProcessCollector ["nginx"%string])
    = ([], Ret (tt, c')) /\
    7 ∈ dom (Cached.cachedProcs c').
Proof.
  split; [reflexivity |].
  destruct (refresh_cache_exact osRunning (Cached.NewProcessCollector ["nginx"%string])
              [pid7] eq_refl) as [c' [Hrun [_ [Hdom _]]]].
  exists c'. split; [exact Hrun |].
  apply Hdom. exists pid7, "nginx"%string.
  split; [by left |]. split; [reflexivity |]. split; [reflexivity |].
  exists "nginx"%string. split; [by left |]. by exists ""%string, ""%string.
Defined.

(** ** The cached exporter: collection *)

Section Collect.
Import Cached.
Variables (c : ProcessCollector) (os : process.OS).
Hypothesis Hlabels : twoLabels c.

(** The label values of an entry are valid as soon as its name is: the
    other one is a number. *)
Lemma validLabels_target target :
  forallb ValidString [Name target; Itoa (process.Pid (Proc target))]
  = ValidString (Name target).
Proof. cbn [forallb]. by rewrite ValidString_Itoa, !andb_true_r. Qed.

Lemma sendMetric_runs d vt v target :
  d ∈ Describe c -> ValidString (Name target) = true ->
  runs (sendMetric d vt v [Name target; Itoa (process.Pid (Proc target))]) c
       [Send (constMetric d vt v target)].
Proof.
  intros Hd Hv. unfold twoLabels in Hlabels. rewrite Forall_forall in Hlabels.
  unfold runs, sendMetric, MustNewConstMetric, validateLabelValues, bind.
  rewrite (Hlabels d Hd), validLabels_target, Hv. reflexivity.
Qed.

Lemma sendMetric_panics d vt v target :
  d ∈ Describe c -> ValidString (Name target) = false ->
  sendMetric d vt v [Name target; Itoa (process.Pid (Proc target))] c
  = ([], Panic "label value is not valid UTF-8").
Proof.
  intros Hd Hv. unfold twoLabels in Hlabels. rewrite Forall_forall in Hlabels.
  unfold sendMetric, MustNewConstMetric, validateLabelValues, bind.
  rewrite (Hlabels d Hd), validLabels_target, Hv. reflexivity.
Qed.

Lemma whenOk_runs {A} (r : result A) (k : A -> M ProcessCollector unit) f :
  (forall a, runs (k a) c (Send <$> f a)) ->
  runs (match r with Ok a => k a | Err _ => ret tt end) c (Send <$> whenOk r f).
Proof. intros Hk. destruct r; [apply Hk | apply runs_ret]. Qed.

(** A turn for an entry whose CPU times cannot be read does nothing,
    whatever the collector. *)
Lemma collectTarget_skips target c' :
  is_ok (process.Times os (Proc target)) = false ->
  collectTarget os target c' = ([], Ret (tt, c')).
Proof.
  unfold collectTarget, bind, get.
  by destruct (process.Times os (Proc target)).
Qed.

Lemma collectTarget_runs target :
  ValidString (Name target) = true ->
  runs (collectTarget os target) c (Send <$> targetSamples c os target).
Proof.
  intros Hv. unfold collectTarget, targetSamples. apply runs_get.
  destruct (process.Times os (Proc target)) as [times|e]; [|apply runs_ret].
  unfold whenOk at 1. rewrite !fmap_app.
  repeat first
    [ apply (runs_bind _ _ _ [_] _)
    | apply (runs_bind _ _ _ (Send <$> whenOk _ _) _)
    | apply whenOk_runs; intros
    | apply sendMetric_runs; [apply list_elem_of_In; simpl; auto 10 | exact Hv] ].
Qed.

(** A turn for an entry whose CPU times can be read and whose name is not
    valid UTF-8 panics at its first sample. *)
Lemma collectTarget_panics target :
  is_ok (process.Times os (Proc target)) = true ->
  ValidString (Name target) = false ->
  collectTarget os target c = ([], Panic "label value is not valid UTF-8").
Proof.
  intros Hlive Hv. unfold collectTarget, bind at 1, get.
  destruct (process.Times os (Proc target)) as [times|e]; [| done].
  unfold bind at 1. rewrite sendMetric_panics; [done | | done].
  apply list_elem_of_In; simpl; auto 10.
Qed.

Lemma collectTarget_cases target :
  collectTarget os target c = (Send <$> targetSamples c os target, Ret (tt, c)) \/
  (is_ok (process.Times os (Proc target)) = true /\
   ValidString (Name target) = false /\
   collectTarget os target c = ([], Panic "label value is not valid UTF-8")).
Proof.
  destruct (ValidString (Name target)) eqn:Hv; [left; by apply collectTarget_runs |].
  destruct (is_ok (process.Times os (Proc target))) eqn:Hlive.
  - right. split_and!; [done | done | by apply collectTarget_panics].
  - left. rewrite collectTarget_skips by done. unfold targetSamples.
    by destruct (process.Times os (Proc target)).
Qed.

(** What a turn sends is what it was to send, or nothing. *)
Lemma collectTarget_sent target :
  logs (collectTarget os target c).1 = [] /\
  (sent (collectTarget os target c).1 = targetSamples c os target \/
   sent (collectTarget os target c).1 = []).
Proof.
  destruct (collectTarget_cases target) as [-> | (_ & _ & ->)]; cbn [fst].
  - rewrite logs_Send, sent_Send. by split; [| left].
  - by split; [| right].
Qed.

Lemma collectTarget_outcome target :
  (collectTarget os target c).2 = Ret (tt, c) \/
  exists msg, (collectTarget os target c).2 = Panic msg.
Proof.
  destruct (collectTarget_cases target) as [-> | (_ & _ & ->)];
    [by left | right; by eexists].
Qed.

(** A scrape is its turns in the order of the range, up to the first that
    panics. *)
Lemma Collect_trace rt :
  exists k,
    (Collect rt os c).1
    = flat_map (fun target => (collectTarget os target c).1)
               (take k (range rt (cachedProcs c)).*2) /\
    ((Collect rt os c).2 = Ret (tt, c) \/
     exists msg, (Collect rt os c).2 = Panic msg).
Proof.
  unfold Collect, bind, get.
  destruct (forEach_trace (collectTarget os) c (range rt (cachedProcs c)).*2)
    as (k & Htr & Ho); [intros target _; apply collectTarget_outcome |].
  exists k. destruct (forEach _ _ c) as [tr o]. by cbn [fst snd app] in *.
Qed.

Lemma Collect_runs rt :
  (forall target, target ∈ (range rt (cachedProcs c)).*2 ->
     is_ok (process.Times os (Proc target)) = true ->
     ValidString (Name target) = true) ->
  runs (Collect rt os) c
       (Send <$> flat_map (targetSamples c os) (range rt (cachedProcs c)).*2).
Proof.
  intros Hvalid. unfold Collect. apply runs_get. rewrite <- flat_map_Send.
  apply runs_forEach. intros target Ht.
  destruct (collectTarget_cases target) as [Hrun | (Hlive & Hv & _)]; [exact Hrun |].
  by rewrite (Hvalid target Ht Hlive) in Hv.
Qed.

(** What a scrape sends, turn by turn: each turn sent what it was to send,
    or nothing. *)
Lemma Collect_sent rt :
  exists k,
    sent (Collect rt os c).1
    = flat_map (fun target => sent (collectTarget os target c).1)
               (take k (range rt (cachedProcs c)).*2) /\
    logs (Collect rt os c).1 = [].
Proof.
  destruct (Collect_trace rt) as (k & -> & _). exists k.
  rewrite sent_flat_map, logs_flat_map. split; [done |].
  induction (take k _) as [|target l IH]; [done |]. cbn [flat_map].
  by rewrite (proj1 (collectTarget_sent target)).
Qed.

Lemma Collect_sent_elem rt s :
  s ∈ sent (Collect rt os c).1 ->
  exists target,
    target ∈ (range rt (cachedProcs c)).*2 /\ s ∈ targetSamples c os target.
Proof.
  destruct (Collect_sent rt) as (k & -> & _). intros Hs.
  apply list_elem_of_In, in_flat_map in Hs as [target [Ht Hs]].
  apply list_elem_of_In in Ht, Hs. exists target.
  split; [by apply (subseteq_take k) |].
  destruct (collectTarget_sent target) as [_ [Heq | Heq]]; rewrite Heq in Hs;
    [done | by apply elem_of_nil in Hs].
Qed.

End Collect.

Section CollectClaims.
Import Cached.

Lemma twoLabels_New names m :
  twoLabels (setCachedProcs (NewProcessCollector names) m).
Proof. unfold twoLabels. simpl. repeat constructor. Qed.


Lemma targetSamples_pid c os target s :
  s ∈ targetSamples c os target ->
  pidLabel s = Some (Itoa (process.Pid (Proc target))).
Proof.
  unfold targetSamples, whenOk.
  destruct (process.Times os (Proc target)); [|by intros ?%elem_of_nil].
  destruct (process.MemoryInfo os (Proc target)), (process.NumThreads os (Proc target)),
    (process.NumFDs os (Proc target)), (process.CreateTime os (Proc target));
    simpl; rewrite ?elem_of_cons, elem_of_nil; intros Hs;
    repeat (destruct Hs as [-> | Hs]; [reflexivity |]); destruct Hs.
Qed.

Lemma targetSamples_up names m os target :
  let c := setCachedProcs (NewProcessCollector names) m in
  sentFor (up c) (targetSamples c os target)
  = if is_ok (process.Times os (Proc target))
    then [constMetric (up c) GaugeValue 1%float target] else [].
Proof.
  unfold targetSamples, whenOk.
  destruct (process.Times os (Proc target)); [|reflexivity].
  destruct (process.MemoryInfo os (Proc target)), (process.NumThreads os (Proc target)),
    (process.NumFDs os (Proc target)), (process.CreateTime os (Proc target));
    reflexivity.
Qed.

End CollectClaims.

(** C9. Whatever the target names, the cache and the state of the system,
    one turn of [Collect] sends for its entry either no [process_up] sample
    or exactly one, with value 1, and then the CPU times of the entry were
    read; it sends none when they could not be read. When the name of the
    entry is valid UTF-8 the turn sends the sample exactly when the CPU
    times could be read (with any other name the turn ends in the panic of
    its first sample). Every [process_up] sample of a scrape has value 1,
    although the help text of the metric speaks of 1 and 0. *)
Theorem up_is_only_ever_one (rt : MapRange Cached.CachedProcess) (os : process.OS)
    (names : list string) (m : gmap Z Cached.CachedProcess) :
  let c := Cached.setCachedProcs (Cached.NewProcessCollector names) m in
  (forall target,
     let ups := sentFor (Cached.up c) (sent (Cached.collectTarget os target c).1) in
     (ups = [] \/
      is_ok (process.Times os (Cached.Proc target)) = true /\
      ups = [constMetric (Cached.up c) GaugeValue 1%float target]) /\
     (is_ok (process.Times os (Cached.Proc target)) = false -> ups = []) /\
     (ValidString (Cached.Name target) = true ->
      ups = if is_ok (process.Times os (Cached.Proc target))
            then [constMetric (Cached.up c) GaugeValue 1%float target] else [])) /\
  (forall s,
     s ∈ sent (Cached.Collect rt os c).1 ->
     fqName (desc s) = "process_up"%string -> value s = 1%float) /\
  help (Cached.up c) = "Whether the process is running (1) or not (0)."%string.
Proof.
  intros c. pose proof (twoLabels_New names m) as Hl. fold c in Hl.
  split; [| split; [| reflexivity]].
  - intros target ups. subst ups.
    destruct (collectTarget_cases c os Hl target) as [-> | (Hlive & Hv & ->)];
      cbn [fst].
    + rewrite sent_Send. unfold c. rewrite targetSamples_up.
      destruct (is_ok (process.Times os (Cached.Proc target)));
        split_and!; auto; done.
    + rewrite Hlive, Hv. split_and!; [by left | done | done].
  - intros s Hs Hup.
    destruct (Collect_sent_elem c os Hl rt s Hs) as (target & _ & Ht).
    assert (Hf : s ∈ sentFor (Cached.up c) (targetSamples c os target))
      by (apply list_elem_of_filter; split; [exact Hup | exact Ht]).
    unfold c in Hf. rewrite targetSamples_up in Hf.
    destruct (is_ok _); [|by apply elem_of_nil in Hf].
    apply list_elem_of_singleton in Hf. by subst s.
Qed.





(** ** The node-process exporter: collection *)


Lemma sends_ret {S} (s : S) : sends (ret tt) s [].
Proof. by exists []. Qed.

Lemma sends_log {S} (s : S) format args : sends (log_Printf format args) s [].
Proof. by exists [Log format args]. Qed.

Lemma sends_bind {S} (m k : M S unit) (s : S) ms ms' :
  sends m s ms -> sends k s ms' -> sends (m ;; k) s (ms ++ ms').
Proof.
  intros [tr [Hm <-]] [tr' [Hk <-]]. exists (tr ++ tr').
  split; [by apply runs_bind | apply sent_app].
Qed.

Lemma sends_bind_value {S A} (m : M S A) (k : A -> M S unit) (s : S) a tr ms :
  m s = (tr, Ret (a, s)) -> sent tr = [] -> sends (k a) s ms ->
  sends (do x <- m; k x) s ms.
Proof.
  intros Hm Htr [tr' [Hk <-]]. exists (tr ++ tr'). split.
  - unfold runs, bind in *. by rewrite Hm, Hk.
  - by rewrite sent_app, Htr.
Qed.

Lemma sends_get {S} (k : S -> M S unit) (s : S) ms :
  sends (k s) s ms -> sends (do x <- get; k x) s ms.
Proof. intros [tr [Hk <-]]. exists tr. split; [by apply runs_get | done]. Qed.

Lemma sends_forEach {S A} (body : A -> M S unit) (f : A -> list Metric) (s : S) l :
  (forall x, x ∈ l -> sends (body x) s (f x)) ->
  sends (forEach l body) s (flat_map f l).
Proof.
  induction l as [|x l IH]; intros Hbody; simpl; [apply sends_ret |].
  apply sends_bind; [apply Hbody; left | apply IH; intros y Hy; apply Hbody; by right].
Qed.

Lemma stops_bind_l {S} (m k : M S unit) (s : S) : stops m s -> stops (m ;; k) s.
Proof.
  intros (tr & msg & Hm & Htr). exists tr, msg. unfold bind. by rewrite Hm.
Qed.

Lemma stops_bind_r {S} (m k : M S unit) (s : S) :
  sends m s [] -> stops k s -> stops (m ;; k) s.
Proof.
  intros (tr & Hm & Htr) (tr' & msg & Hk & Htr'). exists (tr ++ tr'), msg.
  unfold runs, bind in *. rewrite Hm, Hk. by rewrite sent_app, Htr, Htr'.
Qed.

Lemma stops_bind_value {S A} (m : M S A) (k : A -> M S unit) (s : S) a tr :
  m s = (tr, Ret (a, s)) -> sent tr = [] -> stops (k a) s ->
  stops (do x <- m; k x) s.
Proof.
  intros Hm Htr (tr' & msg & Hk & Htr'). exists (tr ++ tr'), msg.
  unfold bind. rewrite Hm, Hk. by rewrite sent_app, Htr, Htr'.
Qed.

Lemma stops_get {S} (k : S -> M S unit) (s : S) :
  stops (k s) s -> stops (do x <- get; k x) s.
Proof.
  intros (tr & msg & Hk & Htr). exists tr, msg. unfold bind, get. by rewrite Hk.
Qed.

(** Two statements in a row. *)
Lemma silentOrStops_bind {S} (m k : M S unit) (s : S) (ms ms' : list Metric) :
  silentOrStops m s ms -> silentOrStops k s ms' ->
  silentOrStops (m ;; k) s (ms ++ ms').
Proof.
  intros [[-> Hm] | [Hms Hm]] [[-> Hk] | [Hms' Hk]].
  - left. split; [done |]. by apply (sends_bind _ _ _ [] []).
  - right. split; [done |]. by apply stops_bind_r.
  - right. split; [by destruct ms |]. by apply stops_bind_l.
  - right. split; [by destruct ms |]. by apply stops_bind_l.
Qed.

Lemma silentOrStops_bind_value {S A} (m : M S A) (k : A -> M S unit) (s : S)
    a tr ms :
  m s = (tr, Ret (a, s)) -> sent tr = [] -> silentOrStops (k a) s ms ->
  silentOrStops (do x <- m; k x) s ms.
Proof.
  intros Hm Htr [[-> Hk] | [Hms Hk]]; [left | right]; (split; [done |]).
  - by eapply sends_bind_value.
  - by eapply stops_bind_value.
Qed.

Lemma silentOrStops_get {S} (k : S -> M S unit) (s : S) ms :
  silentOrStops (k s) s ms -> silentOrStops (do x <- get; k x) s ms.
Proof.
  intros [[-> Hk] | [Hms Hk]]; [left | right]; (split; [done |]).
  - by apply sends_get.
  - by apply stops_get.
Qed.

Lemma silentOrStops_silent {S} (m : M S unit) (s : S) :
  sends m s [] -> silentOrStops m s [].
Proof. by left. Qed.

Lemma silentOrStops_stops {S} (m : M S unit) (s : S) ms :
  ms <> [] -> stops m s -> silentOrStops m s ms.
Proof. by right. Qed.

Section NodeCollect.
Import NodeProcess.
Context `{Unicode}.
Variables (pc : ProcessCollector) (os : process.OS).
Hypothesis Hlabels : fourLabels pc.

Lemma node_sendMetric_sends d vt v lvs :
  d ∈ Describe pc -> length lvs = 4%nat -> forallb ValidString lvs = true ->
  sends (sendMetric d vt v lvs) pc
        [{| desc := d; valueType := vt; value := v; labelValues := lvs |}].
Proof.
  intros Hd Hlen Hv. unfold fourLabels in Hlabels. rewrite Forall_forall in Hlabels.
  exists [Send {| desc := d; valueType := vt; value := v; labelValues := lvs |}].
  split; [|reflexivity].
  unfold runs, sendMetric, MustNewConstMetric, validateLabelValues, bind.
  rewrite (Hlabels d Hd), Hlen, Hv. reflexivity.
Qed.

Lemma node_sendMetric_stops d vt v lvs :
  d ∈ Describe pc -> length lvs = 4%nat -> forallb ValidString lvs = false ->
  stops (sendMetric d vt v lvs) pc.
Proof.
  intros Hd Hlen Hv. unfold fourLabels in Hlabels. rewrite Forall_forall in Hlabels.
  exists [], "label value is not valid UTF-8"%string. split; [| done].
  unfold sendMetric, MustNewConstMetric, validateLabelValues, bind.
  rewrite (Hlabels d Hd), Hlen, Hv. reflexivity.
Qed.

Lemma collectProc_sends proc name :
  process.Name os proc = Ok name -> matches pc name = true ->
  forallb ValidString (labelValuesOf os proc name) = true ->
  sends (collectProc os proc) pc
    (cpuSamples pc os proc name ++ memorySamples pc os proc name ++
     openFilesSamples pc os proc name ++ ioSamples pc os proc name).
Proof.
  intros Hname Hmatch Hvalid.
  assert (Hsend : forall d vt v, d ∈ Describe pc ->
            sends (sendMetric d vt v (labelValuesOf os proc name)) pc
              [{| desc := d; valueType := vt; value := v;
                  labelValues := labelValuesOf os proc name |}])
    by (intros; by apply node_sendMetric_sends).
  assert (H1 : CPU pc ∈ Describe pc) by (apply list_elem_of_In; simpl; auto 10).
  assert (H2 : Memory pc ∈ Describe pc) by (apply list_elem_of_In; simpl; auto 10).
  assert (H3 : OpenFiles pc ∈ Describe pc) by (apply list_elem_of_In; simpl; auto 10).
  assert (H4 : ReadBytesTotal pc ∈ Describe pc) by (apply list_elem_of_In; simpl; auto 10).
  assert (H5 : WriteBytesTotal pc ∈ Describe pc) by (apply list_elem_of_In; simpl; auto 10).
  clear Hvalid.
  unfold collectProc. apply sends_get. rewrite Hname, Hmatch. cbn [negb].
  unfold cpuSamples, memorySamples, openFilesSamples, ioSamples, gauge, counter.
  unfold labelValuesOf in *.
  eapply sends_bind_value with
    (a := match process.Cmdline os proc with Ok c => c | Err _ => ""%string end)
    (tr := match process.Cmdline os proc with Ok c => [] | Err e => [Log _ _] end);
    [by destruct (process.Cmdline os proc) | by destruct (process.Cmdline os proc) |].
  eapply sends_bind_value with
    (a := match process.Username os proc with Ok c => c | Err _ => "unknown"%string end)
    (tr := match process.Username os proc with Ok c => [] | Err e => [Log _ _] end);
    [by destruct (process.Username os proc) | by destruct (process.Username os proc) |].
  repeat apply sends_bind.
  - destruct (process.CPUPercent os proc) as [v|e]; [|apply sends_log].
    destruct (0 <? v)%float; [by apply Hsend | apply sends_ret].
  - destruct (getProcMemoryPercent os proc) as [v|e]; [|apply sends_log].
    destruct (0 <? v)%float; [by apply Hsend | apply sends_ret].
  - destruct (process.OpenFiles os proc) as [files|e]; [|apply sends_log].
    destruct (0 <? _); [by apply Hsend | apply sends_ret].
  - destruct (process.IOCounters os proc) as [io|e]; [|apply sends_log].
    apply (sends_bind _ _ _ [_] [_]); by apply Hsend.
Qed.

(** With a label value that is not valid UTF-8 the turn is silent as long
    as it has no sample to send, and panics at the first it has. *)
Lemma collectProc_invalid proc name :
  process.Name os proc = Ok name -> matches pc name = true ->
  forallb ValidString (labelValuesOf os proc name) = false ->
  silentOrStops (collectProc os proc) pc
    (cpuSamples pc os proc name ++ memorySamples pc os proc name ++
     openFilesSamples pc os proc name ++ ioSamples pc os proc name).
Proof.
  intros Hname Hmatch Hvalid.
  assert (Hstop : forall d vt v, d ∈ Describe pc ->
            stops (sendMetric d vt v (labelValuesOf os proc name)) pc)
    by (intros; by apply node_sendMetric_stops).
  assert (H1 : CPU pc ∈ Describe pc) by (apply list_elem_of_In; simpl; auto 10).
  assert (H2 : Memory pc ∈ Describe pc) by (apply list_elem_of_In; simpl; auto 10).
  assert (H3 : OpenFiles pc ∈ Describe pc) by (apply list_elem_of_In; simpl; auto 10).
  assert (H4 : ReadBytesTotal pc ∈ Describe pc) by (apply list_elem_of_In; simpl; auto 10).
  clear Hvalid.
  unfold collectProc. apply silentOrStops_get. rewrite Hname, Hmatch. cbn [negb].
  unfold cpuSamples, memorySamples, openFilesSamples, ioSamples, gauge, counter.
  unfold labelValuesOf in *.
  eapply silentOrStops_bind_value with
    (a := match process.Cmdline os proc with Ok c => c | Err _ => ""%string end)
    (tr := match process.Cmdline os proc with Ok c => [] | Err e => [Log _ _] end);
    [by destruct (process.Cmdline os proc) | by destruct (process.Cmdline os proc) |].
  eapply silentOrStops_bind_value with
    (a := match process.Username os proc with Ok c => c | Err _ => "unknown"%string end)
    (tr := match process.Username os proc with Ok c => [] | Err e => [Log _ _] end);
    [by destruct (process.Username os proc) | by destruct (process.Username os proc) |].
  repeat apply silentOrStops_bind.
  - destruct (process.CPUPercent os proc) as [v|e];
      [| apply silentOrStops_silent, sends_log].
    destruct (0 <? v)%float;
      [apply silentOrStops_stops; [done | by apply Hstop]
      | apply silentOrStops_silent, sends_ret].
  - destruct (getProcMemoryPercent os proc) as [v|e];
      [| apply silentOrStops_silent, sends_log].
    destruct (0 <? v)%float;
      [apply silentOrStops_stops; [done | by apply Hstop]
      | apply silentOrStops_silent, sends_ret].
  - destruct (process.OpenFiles os proc) as [files|e];
      [| apply silentOrStops_silent, sends_log].
    destruct (0 <? _);
      [apply silentOrStops_stops; [done | by apply Hstop]
      | apply silentOrStops_silent, sends_ret].
  - destruct (process.IOCounters os proc) as [io|e];
      [| apply silentOrStops_silent, sends_log].
    apply silentOrStops_stops; [done | by apply stops_bind_l, Hstop].
Qed.

(** A turn sends the samples of its process and returns, or panics
    before it has sent anything. *)
Lemma collectProc_cases proc :
  sends (collectProc os proc) pc (procSamples pc os proc) \/
  stops (collectProc os proc) pc.
Proof.
  unfold procSamples. destruct (process.Name os proc) as [name|e] eqn:Hname.
  - destruct (matches pc name) eqn:Hm.
    + destruct (forallb ValidString (labelValuesOf os proc name)) eqn:Hv;
        [left; by apply collectProc_sends |].
      destruct (collectProc_invalid proc name Hname Hm Hv) as [[-> ?] | [_ ?]];
        [by left | by right].
    + left. unfold collectProc. apply sends_get. rewrite Hname, Hm. apply sends_ret.
  - left. unfold collectProc. apply sends_get. rewrite Hname. apply sends_log.
Qed.

Lemma collectProc_valid proc :
  (forall name, process.Name os proc = Ok name -> matches pc name = true ->
                forallb ValidString (labelValuesOf os proc name) = true) ->
  sends (collectProc os proc) pc (procSamples pc os proc).
Proof.
  intros Hvalid. unfold procSamples.
  destruct (process.Name os proc) as [name|e] eqn:Hname.
  - destruct (matches pc name) eqn:Hm.
    + apply collectProc_sends; auto.
    + unfold collectProc. apply sends_get. rewrite Hname, Hm. apply sends_ret.
  - unfold collectProc. apply sends_get. rewrite Hname. apply sends_log.
Qed.

Lemma collectProc_sent proc :
  sent (collectProc os proc pc).1 = procSamples pc os proc \/
  sent (collectProc os proc pc).1 = [].
Proof.
  destruct (collectProc_cases proc) as [(tr & Hrun & Hsent) | (tr & msg & Hrun & Hsent)].
  - left. unfold runs in Hrun. by rewrite Hrun.
  - right. by rewrite Hrun.
Qed.

Lemma collectProc_outcome proc :
  (collectProc os proc pc).2 = Ret (tt, pc) \/
  exists msg, (collectProc os proc pc).2 = Panic msg.
Proof.
  destruct (collectProc_cases proc) as [(tr & Hrun & _) | (tr & msg & Hrun & _)].
  - left. unfold runs in Hrun. by rewrite Hrun.
  - right. exists msg. by rewrite Hrun.
Qed.

(** A scrape is its turns in the order of the enumeration, up to the first
    that panics. *)
Lemma node_Collect_trace processes :
  process.Processes os = Ok processes ->
  exists k,
    (Collect os pc).1
    = flat_map (fun proc => (collectProc os proc pc).1) (take k processes) /\
    ((Collect os pc).2 = Ret (tt, pc) \/ exists msg, (Collect os pc).2 = Panic msg).
Proof.
  intros Hos. unfold Collect. rewrite Hos.
  apply forEach_trace. intros proc _. apply collectProc_outcome.
Qed.

Lemma node_Collect_sent_elem processes s :
  process.Processes os = Ok processes ->
  s ∈ sent (Collect os pc).1 ->
  exists proc, proc ∈ processes /\ s ∈ procSamples pc os proc.
Proof.
  intros Hos. destruct (node_Collect_trace processes Hos) as (k & -> & _).
  rewrite sent_flat_map. intros Hs.
  apply list_elem_of_In, in_flat_map in Hs as [proc [Hproc Hs]].
  apply list_elem_of_In in Hproc, Hs. exists proc.
  split; [by apply (subseteq_take k) |].
  destruct (collectProc_sent proc) as [Heq | Heq]; rewrite Heq in Hs;
    [done | by apply elem_of_nil in Hs].
Qed.

Lemma node_Collect_sends processes :
  process.Processes os = Ok processes ->
  (forall proc name,
     proc ∈ processes -> process.Name os proc = Ok name -> matches pc name = true ->
     forallb ValidString (labelValuesOf os proc name) = true) ->
  sends (Collect os) pc (flat_map (procSamples pc os) processes).
Proof.
  intros Hok Hvalid. unfold Collect. rewrite Hok.
  apply sends_forEach. intros proc Hproc. apply collectProc_valid.
  intros name. by apply Hvalid.
Qed.

End NodeCollect.

Lemma fourLabels_New include : fourLabels (NodeProcess.NewProcessCollector include).
Proof. unfold fourLabels. simpl. repeat constructor. Qed.






(** ** The node-process exporter: memory percentage *)

(** C7. When both queries succeed, [getProcMemoryPercent] returns
    (resident memory / total physical memory) * 100 in float64 arithmetic;
    for 200 MiB out of 2000 MiB this is 10.0; and the result is determined by
    the answers of the two queries alone. *)
Theorem memory_percent_derivation (os : process.OS) (proc : process.Process)
    (procMem : process.MemoryInfoStat) (nodeMem : process.VirtualMemoryStat) :
  process.MemoryInfo os proc = Ok procMem ->
  process.VirtualMemory os = Ok nodeMem ->
  0 < process.Total nodeMem ->
  NodeProcess.getProcMemoryPercent os proc
  = Ok ((float64 (process.RSS procMem) / float64 (process.Total nodeMem)) * 100)%float /\
  (process.RSS procMem = 200 * 1024 * 1024 ->
   process.Total nodeMem = 2000 * 1024 * 1024 ->
   NodeProcess.getProcMemoryPercent os proc = Ok 10%float) /\
  (forall os' proc',
     process.MemoryInfo os' proc' = process.MemoryInfo os proc ->
     process.VirtualMemory os' = process.VirtualMemory os ->
     NodeProcess.getProcMemoryPercent os' proc'
     = NodeProcess.getProcMemoryPercent os proc).
Proof.
  intros Hmem Hvm _. unfold NodeProcess.getProcMemoryPercent.
  rewrite Hmem, Hvm. split; [done |]. split.
  - intros -> ->. reflexivity.
  - by intros os' proc' -> ->.
Qed.

Lemma memory_percent_derivation_witness :
  process.MemoryInfo osRunning pid7
  = Ok {| process.RSS := 200 * 1024 * 1024; process.VMS := 512 * 1024 * 1024 |} /\
  process.VirtualMemory osRunning = Ok {| process.Total := 2000 * 1024 * 1024 |} /\
  NodeProcess.getProcMemoryPercent osRunning pid7 = Ok 10%float.
Proof.
  split; [reflexivity |]. split; [reflexivity |].
  refine (proj1 (proj2 (memory_percent_derivation osRunning pid7 _ _ eq_refl eq_refl _))
            eq_refl eq_refl).
  simpl. lia.
Defined.

(** ** The node-process exporter: the name filter *)

(** C8, as stated, fails when no names are configured: the filter then lets
    every process through, although no normalized target name equals its
    normalized name. *)
Lemma empty_name_set_matches_every_name :
  let pc := NodeProcess.NewProcessCollector (@NodeProcess.includeOf asciiOnly "") in
  @NodeProcess.matches asciiOnly pc "bash" = true /\
  @NodeProcess.normalizeName asciiOnly "bash" ∉ NodeProcess.includeNames pc.
Proof. split; [reflexivity | apply not_elem_of_empty]. Qed.

Lemma normalizeName_TrimSuffix `{Unicode} n :
  NodeProcess.normalizeName n = TrimSuffix (ToLower n) ".exe".
Proof.
  unfold NodeProcess.normalizeName, TrimSuffix.
  by destruct (HasSuffix (ToLower n) ".exe").
Qed.

Lemma includeStep_fold `{Unicode} parts acc x :
  x ∈ fold_left NodeProcess.includeStep parts acc <->
  x ∈ acc \/ exists p, p ∈ parts /\ TrimSpace p <> ""%string /\
                       x = NodeProcess.normalizeName (TrimSpace p).
Proof.
  revert acc. induction parts as [|q parts IH]; intros acc; simpl.
  - split; [by left | intros [? | (p & Hp & _)]; [done | by apply elem_of_nil in Hp]].
  - rewrite IH. unfold NodeProcess.includeStep.
    destruct (String.eqb_spec (TrimSpace q) "") as [Hq | Hq].
    + split.
      * intros [? | (p & Hp & ?)]; [by left | right; exists p; split; [by right | done]].
      * intros [? | (p & Hp & Hne & ?)]; [by left |].
        apply elem_of_cons in Hp as [-> | Hp]; [done | right; by exists p].
    + rewrite elem_of_union, elem_of_singleton. split.
      * intros [[-> | ?] | (p & Hp & ?)];
          [right; exists q; split; [by left | done] | by left
          | right; exists p; split; [by right | done]].
      * intros [? | (p & Hp & Hne & ->)]; [left; by right |].
        apply elem_of_cons in Hp as [-> | Hp]; [left; by left | right; by exists p].
Qed.

(** C8, as the code has it. With a non-empty set of names, a process name
    passes the filter exactly when its normalized form is one of the
    normalized target names; with an empty set every name passes. The
    normalized form is the lower-cased name without one trailing [.exe]; the
    normalized target names are those of the non-blank, trimmed parts of the
    [-names] flag. With the flag [nginx], the process name [Nginx.exe]
    passes. *)
Theorem normalized_equality_policy `{Unicode} (pc : NodeProcess.ProcessCollector)
    (name : string) :
  (size (NodeProcess.includeNames pc) <> 0%nat ->
     (NodeProcess.matches pc name = true <->
      NodeProcess.normalizeName name ∈ NodeProcess.includeNames pc)) /\
  (size (NodeProcess.includeNames pc) = 0%nat -> NodeProcess.matches pc name = true) /\
  (forall stem, ToLower name = (stem +:+ ".exe")%string ->
                NodeProcess.normalizeName name = stem) /\
  ((forall stem, ToLower name <> (stem +:+ ".exe")%string) ->
   NodeProcess.normalizeName name = ToLower name) /\
  (isASCII name = true -> ToLower name = mapBytes lowerByte name) /\
  (forall names target,
     names <> ""%string ->
     (target ∈ NodeProcess.includeOf names <->
      exists part, part ∈ Split names "," /\ TrimSpace part <> ""%string /\
                   target = NodeProcess.normalizeName (TrimSpace part))) /\
  NodeProcess.matches (NodeProcess.NewProcessCollector (NodeProcess.includeOf "nginx"))
    "Nginx.exe" = true.
Proof.
  split_and!.
  - intros Hsize. unfold NodeProcess.matches.
    destruct (size (NodeProcess.includeNames pc)); [done |].
    cbn [Nat.ltb Nat.leb]. apply bool_decide_eq_true.
  - unfold NodeProcess.matches. by intros ->.
  - intros stem Hstem. rewrite normalizeName_TrimSuffix, Hstem. apply TrimSuffix_app.
  - intros Hno. rewrite normalizeName_TrimSuffix. by apply TrimSuffix_other.
  - unfold ToLower. by intros ->.
  - intros names target Hnames. unfold NodeProcess.includeOf.
    destruct (String.eqb_spec names "") as [-> | _]; [done |].
    cbn [negb]. rewrite includeStep_fold, elem_of_empty. tauto.
  - vm_compute. reflexivity.
Qed.

(** ** Independence of the statistic queries *)


(** ** Startup *)

(** C2, as stated, fails on the node-process exporter: started without
    names it registers its collector, binds the listen address and serves. *)
Lemma node_process_serves_without_names :
  let r := @NodeProcess.main asciiOnly
             {| NodeProcess.namesFlag := ""; NodeProcess.addrFlag := ":9002" |}
             (fun _ => None) tt in
  ListenAndServe ":9002" ∈ r.1 /\ r.2 = Serving.
Proof. split; [| reflexivity]. simpl. repeat constructor. Qed.

(** C2, as the code has it. The cached exporter started with an empty
    [-names] logs a message and exits with status 1; it does nothing else: no
    refresh, no registration, no listening. The node-process exporter started
    with an empty [-names] filters nothing, registers its collector and calls
    [ListenAndServe] on the listen address, where it stays unless the server
    fails. *)
Theorem empty_names_fatal_in_cached_exporter `{Unicode} (addr : string) (interval : Z)
    (os : process.OS) (serve : string -> option error) :
  Cached.main {| Cached.addr := addr; Cached.procNames := "";
                 Cached.refreshInterval := interval |} os serve tt
  = ([Log "Please provide -names (e.g., -names=nginx,mysql)" []], Exit 1) /\
  let r := NodeProcess.main
             {| NodeProcess.namesFlag := ""; NodeProcess.addrFlag := addr |} serve tt in
  NodeProcess.includeOf "" = ∅ /\
  Register (NodeProcess.Describe (NodeProcess.NewProcessCollector ∅)) ∈ r.1 /\
  ListenAndServe addr ∈ r.1 /\
  (serve addr = None -> r.2 = Serving).
Proof.
  split; [reflexivity |]. intros r. split; [reflexivity |].
  subst r. unfold NodeProcess.main, http_ListenAndServe, log_Fatalf, log_Printf, bind, emit, exit.
  cbn [NodeProcess.namesFlag NodeProcess.addrFlag].
  destruct (serve addr) as [err|]; cbn [fst snd app].
  - split; [by left |]. split; [| done]. do 3 right. by left.
  - split; [by left |]. split; [| done]. do 3 right. by left.
Qed.

(** ** A scrape beside a refresh cycle *)

Section Interleaved.
Import Cached Interleaving.
Variables (c : ProcessCollector) (os : process.OS) (pre : gmap Z CachedProcess).

Lemma inv_init : inv c os pre (init pre).
Proof. repeat split. Qed.

Lemma seen_all_perm (cache : gmap Z CachedProcess) seen :
  NoDup seen.*1 ->
  (forall pid cached, (pid, cached) ∈ seen -> cache !! pid = Some cached) ->
  (forall pid, is_Some (cache !! pid) -> pid ∈ seen.*1) ->
  seen ≡ₚ map_to_list cache.
Proof.
  intros Hnd Hin Hall. apply NoDup_Permutation.
  - eapply NoDup_fmap_1, Hnd.
  - apply NoDup_map_to_list.
  - intros [pid cached]. rewrite elem_of_map_to_list. split; [apply Hin |].
    intros Hc. assert (Hs : pid ∈ seen.*1) by (apply Hall; by eexists).
    apply list_elem_of_fmap in Hs as [[pid' cached'] [-> Hs]]. simpl in *.
    pose proof (Hin _ _ Hs) as Hc'. rewrite Hc in Hc'. by injection Hc' as <-.
Qed.

Lemma built_snoc scanned p :
  built c os (scanned ++ [p]) = scanStep c os (built c os scanned) p.
Proof. unfold built. by rewrite fold_left_app. Qed.

(** A statement of the refresher before the assignment leaves the scraper's
    map alone: the scraper can only be ranging over the old map. *)
Lemma scraper_inv_before_assign s s' :
  spc s' = spc s -> heap s' !! 0%nat = heap s !! 0%nat ->
  rpc s <> RUnlock -> rpc s <> RReturned ->
  scraper_inv c os pre s -> scraper_inv c os pre s'.
Proof.
  unfold scraper_inv. intros -> Hheap Hnu Hnr.
  destruct (spc s) as [| | m seen | seen | targets]; try done.
  intros (cache & Hm & [-> | [_ [?|?]]] & Hnd & Hin); try done.
  exists cache. rewrite Hheap. auto.
Qed.

Lemma inv_step s s' : inv c os pre s -> step c os s s' -> inv c os pre s'.
Proof.
  intros (Hpre & Hr & Hs) Hstep. unfold inv.
  destruct Hstep as
    [s err Hpc Herr | s allProcs Hpc Hok | s allProcs Hpc l | s p todo l newCache Hpc Hl
    | s l Hpc | s l Hpc Hw Hrd | s l Hpc | s Hpc
    | s Hpc Hw | s Hpc | s m seen cache pid cached Hpc Hm Hc Hfresh
    | s m seen cache Hpc Hm Hall | s seen Hpc].
  - (* the enumeration fails *)
    split; [done |]. split.
    + unfold refresher_inv in *. rewrite Hpc in Hr. simpl. by left.
    + eapply scraper_inv_before_assign; [..| exact Hs]; rewrite ?Hpc; done.
  - (* the enumeration succeeds *)
    split; [done |]. split.
    + unfold refresher_inv in *. rewrite Hpc in Hr. simpl. done.
    + eapply scraper_inv_before_assign; [..| exact Hs]; rewrite ?Hpc; done.
  - (* make *)
    assert (Hl : l <> 0%nat).
    { intros Hl0. apply (is_fresh (dom (heap s))). fold l. rewrite Hl0.
      apply elem_of_dom. by eexists. }
    assert (Hheap : <[l:=∅]> (heap s) !! 0%nat = heap s !! 0%nat)
      by (by rewrite lookup_insert_ne).
    split; [simpl; by rewrite Hheap |]. split.
    + unfold refresher_inv in *. rewrite Hpc in Hr. destruct Hr as [Hr Hok]. simpl.
      split; [done |]. split; [done |]. exists [].
      split; [done |]. by rewrite lookup_insert_eq.
    + eapply scraper_inv_before_assign; [..| exact Hs]; rewrite ?Hpc; done.
  - (* one turn of the filter loop *)
    unfold refresher_inv in Hr. rewrite Hpc in Hr.
    destruct Hr as (Hr & Hl0 & scanned & Hok & Hb).
    rewrite Hl in Hb. injection Hb as ->.
    assert (Hheap : <[l:=scanStep c os (built c os scanned) p]> (heap s) !! 0%nat
                    = heap s !! 0%nat) by (by rewrite lookup_insert_ne).
    split; [simpl; by rewrite Hheap |]. split.
    + unfold refresher_inv. simpl. split; [done |]. split; [done |].
      exists (scanned ++ [p]). rewrite <- app_assoc. split; [done |].
      by rewrite lookup_insert_eq, built_snoc.
    + eapply scraper_inv_before_assign; [..| exact Hs]; rewrite ?Hpc; done.
  - (* the loop ends *)
    split; [done |]. split.
    + unfold refresher_inv in *. rewrite Hpc in Hr. simpl.
      destruct Hr as (Hr & Hl0 & scanned & Hok & Hb). rewrite app_nil_r in Hok.
      split; [done |]. split; [done |]. exists (built c os scanned).
      split; [done |]. by exists scanned.
    + eapply scraper_inv_before_assign; [..| exact Hs]; rewrite ?Hpc; done.
  - (* Lock *)
    split; [done |]. split.
    + unfold refresher_inv in *. rewrite Hpc in Hr. simpl. done.
    + eapply scraper_inv_before_assign; [..| exact Hs]; rewrite ?Hpc; done.
  - (* the assignment *)
    unfold refresher_inv in Hr. rewrite Hpc in Hr.
    destruct Hr as (Hr & Hl0 & cache & Hl & Hpub).
    split; [done |]. split.
    + unfold refresher_inv. simpl. right. by exists cache.
    + unfold scraper_inv in *. simpl.
      destruct (spc s) as [| | m seen | seen | targets]; try done.
      destruct Hs as (cache' & Hm & Hor & Hnd & Hin). exists cache'.
      split; [done |]. split; [| done].
      destruct Hor as [-> | [_ [Hu|Hu]]]; [by left | congruence | congruence].
  - (* Unlock *)
    split; [done |]. split.
    + unfold refresher_inv in *. rewrite Hpc in Hr. simpl. done.
    + unfold scraper_inv in *. simpl.
      destruct (spc s) as [| | m seen | seen | targets]; try done.
      destruct Hs as (cache' & Hm & Hor & Hnd & Hin). exists cache'.
      split; [done |]. split; [| done].
      destruct Hor as [-> | [-> _]]; [by left | right; auto].
  - (* RLock *)
    split; [done |]. split; [exact Hr |]. unfold scraper_inv. simpl. done.
  - (* range begins *)
    split; [done |]. split; [exact Hr |]. unfold scraper_inv, refresher_inv in *. simpl.
    assert (Hnil : NoDup ([] : list (Z * CachedProcess)).*1 /\
                   forall (cache : gmap Z CachedProcess) pid cached,
                     (pid, cached) ∈ ([] : list (Z * CachedProcess)) ->
                     cache !! pid = Some cached).
    { split; [constructor | intros ? ? ? Hin; by apply elem_of_nil in Hin]. }
    destruct Hnil as [Hnd Hin].
    assert (Hcases : cachedProcsRef s = 0%nat \/
              ((rpc s = RUnlock \/ rpc s = RReturned) /\
               exists cache, heap s !! cachedProcsRef s = Some cache)).
    { destruct (rpc s) as [| allProcs | todo l | l | l | |] eqn:Hrpc;
        [left; exact Hr | left; by destruct Hr | left; by destruct Hr
        | left; by destruct Hr | left; by destruct Hr | |];
        (destruct Hr as [Hr | (cache & Hc & _)];
          [by left | right; split; [auto | by exists cache]]). }
    destruct Hcases as [Href | [Hrpc [cache Hc]]].
    + exists pre. rewrite Href. split_and!; [done | by left | done | by apply Hin].
    + exists cache. split_and!; [done | right; auto | done | by apply Hin].
  - (* range visits an entry *)
    split; [done |]. split; [exact Hr |]. unfold scraper_inv in *. simpl.
    rewrite Hpc in Hs. destruct Hs as (cache' & Hm' & Hor & Hnd & Hin).
    rewrite Hm in Hm'. injection Hm' as <-.
    exists cache. split; [done |]. split; [done |]. split.
    + rewrite fmap_app. apply NoDup_app. split; [done |]. split.
      * intros x Hx Hx'. apply list_elem_of_singleton in Hx'. by subst x.
      * apply NoDup_singleton.
    + intros pid' cached' Hin'. apply elem_of_app in Hin' as [Hin' | Hin'].
      * by apply Hin.
      * apply list_elem_of_singleton in Hin'. by injection Hin' as -> ->.
  - (* range ends *)
    split; [done |]. split; [exact Hr |]. unfold scraper_inv, refresher_inv in *. simpl.
    rewrite Hpc in Hs. destruct Hs as (cache' & Hm' & Hor & Hnd & Hin).
    rewrite Hm in Hm'. injection Hm' as <-.
    exists cache. split; [| by apply seen_all_perm].
    destruct Hor as [-> | [-> Hrpc]].
    + left. rewrite Hpre in Hm. by injection Hm as <-.
    + assert (Hor : cachedProcsRef s = 0%nat \/
                    exists cache0, heap s !! cachedProcsRef s = Some cache0 /\
                                   published c os cache0)
        by (destruct Hrpc as [Hrpc | Hrpc]; by rewrite Hrpc in Hr).
      destruct Hor as [H0 | (cache0 & Hc0 & Hpub)].
      * left. rewrite H0, Hpre in Hm. by injection Hm as <-.
      * right. rewrite Hm in Hc0. by injection Hc0 as <-.
  - (* RUnlock *)
    split; [done |]. split; [exact Hr |]. unfold scraper_inv in *. simpl.
    rewrite Hpc in Hs. destruct Hs as (cache & Hsnap & Hperm).
    exists cache, seen. split_and!; done.
Qed.

Lemma inv_reachable s : reachable c os pre s -> inv c os pre s.
Proof.
  unfold reachable. revert s.
  apply (@rtc_ind_r _ (step c os) (inv c os pre) (init pre)); [apply inv_init |].
  intros s1 s2 _ Hstep Hinv. by apply (inv_step s1 s2).
Qed.

Lemma lock_inv_init : lock_inv (init pre).
Proof. repeat split. Qed.

Lemma lock_inv_step s s' : lock_inv s -> step c os s s' -> lock_inv s'.
Proof.
  intros (Hw & Hrd & Hex) Hstep. unfold lock_inv.
  destruct Hstep as
    [s err Hpc Herr | s allProcs Hpc Hok | s allProcs Hpc l | s p todo l newCache Hpc Hl
    | s l Hpc | s l Hpc Hwf Hr0 | s l Hpc | s Hpc
    | s Hpc Hwf | s Hpc | s m seen cache pid cached Hpc Hm Hc Hfresh
    | s m seen cache Hpc Hm Hall | s seen Hpc];
    simpl; rewrite Hpc in *; simpl in *.
  - done.
  - done.
  - done.
  - done.
  - done.
  - (* Lock *) split_and!; [done | by rewrite <- Hrd | done].
  - done.
  - (* Unlock *) split_and!; [done | done | done].
  - (* RLock *) split_and!; [by rewrite <- Hw | by rewrite Hrd | done].
  - done.
  - done.
  - done.
  - (* RUnlock *) split_and!; [done | by rewrite Hrd |].
    intros Hwt. by rewrite (Hex Hwt).
Qed.

Lemma lock_inv_reachable s : reachable c os pre s -> lock_inv s.
Proof.
  unfold reachable. revert s.
  apply (@rtc_ind_r _ (step c os) lock_inv (init pre)); [apply lock_inv_init |].
  intros s1 s2 _ Hstep Hinv. by apply (lock_inv_step s1 s2).
Qed.

Lemma range_rangeAs (cache : gmap Z CachedProcess) seen Hseen :
  range (rangeAs cache seen Hseen) cache = seen.
Proof. simpl. by destruct (decide (cache = cache)). Qed.

Lemma published_refresh cache :
  published c os cache ->
  exists c', (refreshProcessCache os (setCachedProcs c pre)).2 = Ret (tt, c') /\
             cache = cachedProcs c'.
Proof.
  intros (allProcs & Hok & ->). unfold refreshProcessCache. rewrite Hok.
  eexists. split; reflexivity.
Qed.

End Interleaved.

(** C6. Take any interleaving of the statements of one refresh cycle and of
    the locked section of one scrape, started with the cache [pre] current.
    While the scrape ranges over a map, that map is a whole snapshot, either
    [pre] or the map the refresh cycle publishes, and what the scrape has
    copied so far are entries of it. When the scrape has left the section,
    the targets it copied are the entries of one of the two snapshots, each
    once, and what it goes on to collect is what [Collect] collects on that
    snapshot. The refresher assigns the new map holding the write lock, and
    then no scrape is inside its locked section. *)
Theorem scrape_sees_one_snapshot (c : Cached.ProcessCollector) (os : process.OS)
    (pre : gmap Z Cached.CachedProcess) (s : Interleaving.state) :
  Interleaving.reachable c os pre s ->
  let snapshots snapshot :=
    snapshot = pre \/
    exists c', (Cached.refreshProcessCache os (Cached.setCachedProcs c pre)).2
               = Ret (tt, c') /\
               snapshot = Cached.cachedProcs c' in
  (forall m seen,
     Interleaving.spc s = Interleaving.SRange m seen ->
     exists snapshot,
       Interleaving.heap s !! m = Some snapshot /\ snapshots snapshot /\
       forall pid cached, (pid, cached) ∈ seen -> snapshot !! pid = Some cached) /\
  (forall targets,
     Interleaving.spc s = Interleaving.SQuery targets ->
     exists (rt : MapRange Cached.CachedProcess) snapshot,
       snapshots snapshot /\
       targets = (range rt snapshot).*2 /\
       forall os',
         forEach targets (Cached.collectTarget os') (Cached.setCachedProcs c snapshot)
         = Cached.Collect rt os' (Cached.setCachedProcs c snapshot)) /\
  (forall l,
     Interleaving.rpc s = Interleaving.RAssign l ->
     Interleaving.writer s = true /\ Interleaving.readers s = 0%nat /\
     (Interleaving.spc s = Interleaving.SRLock \/
      exists targets, Interleaving.spc s = Interleaving.SQuery targets)).
Proof.
  intros Hreach snapshots.
  destruct (inv_reachable c os pre s Hreach) as (Hpre & Hr & Hs).
  destruct (lock_inv_reachable c os pre s Hreach) as (Hw & Hrd & Hex).
  unfold scraper_inv, refresher_inv in *. split; [| split].
  3: {
    intros l Hpc. rewrite Hpc in Hw. simpl in Hw.
    split; [done |]. split; [by apply Hex |].
    rewrite (Hex Hw) in Hrd.
    destruct (Interleaving.spc s) as [| | m seen | seen | targets]; simpl in Hrd;
      try discriminate; [by left | right; by exists targets]. }
  - intros m seen Hpc. rewrite Hpc in Hs.
    destruct Hs as (cache & Hm & Hor & _ & Hin).
    exists cache. split; [done |]. split; [| done].
    destruct Hor as [-> | [-> Hrpc]].
    + left. rewrite Hpre in Hm. by injection Hm as <-.
    + assert (Hor : Interleaving.cachedProcsRef s = 0%nat \/
                    exists cache0,
                      Interleaving.heap s !! Interleaving.cachedProcsRef s = Some cache0 /\
                      published c os cache0)
        by (destruct Hrpc as [Hrpc | Hrpc]; by rewrite Hrpc in Hr).
      destruct Hor as [H0 | (cache0 & Hc0 & Hpub)].
      * left. rewrite H0, Hpre in Hm. by injection Hm as <-.
      * right. rewrite Hm in Hc0. injection Hc0 as <-.
        by apply published_refresh.
  - intros targets Hpc. rewrite Hpc in Hs.
    destruct Hs as (cache & seen & Hsnap & Hperm & ->).
    exists (rangeAs cache seen Hperm), cache. split; [| split].
    + destruct Hsnap as [-> | Hpub]; [by left | right; by apply published_refresh].
    + by rewrite range_rangeAs.
    + intros os'. unfold Cached.Collect, bind, get. cbn [Cached.cachedProcs Cached.setCachedProcs].
      rewrite range_rangeAs.
      by destruct (forEach seen.*2 (Cached.collectTarget os') _) as [tr o].
Qed.

(** A run in which the scrape copies the old cache while the refresher has
    the new one ready and waits for the lock. *)
Lemma afterBoth_reachable :
  Interleaving.reachable watching7 osGone {[ 7 := nginx7 ]} afterBoth.
Proof.
  unfold Interleaving.reachable.
  eapply rtc_l; [by eapply Interleaving.step_enumerate |].
  eapply rtc_l; [by eapply Interleaving.step_make |].
  eapply rtc_l; [by eapply Interleaving.step_filter_end |].
  eapply rtc_l; [by eapply Interleaving.step_rlock |].
  eapply rtc_l; [by eapply Interleaving.step_range_begin |].
  eapply rtc_l.
  { eapply (Interleaving.step_range_next _ _ _ 0%nat [] {[ 7 := nginx7 ]} 7 nginx7);
      [reflexivity | reflexivity | reflexivity | apply not_elem_of_nil]. }
  eapply rtc_l.
  { eapply (Interleaving.step_range_end _ _ _ 0%nat [(7, nginx7)] {[ 7 := nginx7 ]});
      [reflexivity | reflexivity |].
    intros pid [cached Hc]. apply lookup_singleton_Some in Hc as [<- _]. by left. }
  eapply rtc_l; [by eapply Interleaving.step_runlock |].
  eapply rtc_l; [by eapply Interleaving.step_lock |].
  eapply rtc_l; [by eapply Interleaving.step_assign |].
  eapply rtc_l; [by eapply Interleaving.step_unlock |].
  vm_compute. apply rtc_refl.
Defined.

Lemma scrape_sees_one_snapshot_witness :
  Interleaving.reachable watching7 osGone {[ 7 := nginx7 ]} afterBoth /\
  exists (rt : MapRange Cached.CachedProcess) snapshot,
    (snapshot = {[ 7 := nginx7 ]} \/
     exists c', (Cached.refreshProcessCache osGone
                   (Cached.setCachedProcs watching7 {[ 7 := nginx7 ]})).2
                = Ret (tt, c') /\
                snapshot = Cached.cachedProcs c') /\
    [nginx7] = (range rt snapshot).*2.
Proof.
  split; [exact afterBoth_reachable |].
  destruct (proj1 (proj2 (scrape_sees_one_snapshot watching7 osGone {[ 7 := nginx7 ]}
                            afterBoth afterBoth_reachable)) [nginx7] eq_refl)
    as (rt & snapshot & Hsnap & Htargets & _).
  by exists rt, snapshot.
Defined.

(** * Further properties *)

(** ** The names flag *)

Lemma string_app_assoc (s1 s2 s3 : string) :
  ((s1 +:+ s2) +:+ s3 = s1 +:+ (s2 +:+ s3))%string.
Proof. induction s1 as [|a s1 IH]; [done |]. rewrite !app_String. by rewrite IH. Qed.

Lemma string_app_nil_r (s : string) : (s +:+ "" = s)%string.
Proof. induction s as [|a s IH]; [done |]. rewrite app_String. by rewrite IH. Qed.

Lemma rev_app_app (s1 s2 : string) :
  String.rev_app s1 s2 = (String.rev_app s1 "" +:+ s2)%string.
Proof.
  revert s2. induction s1 as [|a s1 IH]; intros s2; [done |].
  simpl. rewrite (IH (String a s2)), (IH (String a "")).
  rewrite string_app_assoc. by rewrite app_String.
Qed.

Lemma rev_String a (s : string) :
  String.rev (String a s) = (String.rev s +:+ String a "")%string.
Proof. unfold String.rev. simpl. apply rev_app_app. Qed.

Lemma HasPrefix_comma c (s : string) :
  HasPrefix (String c s) "," = Ascii.eqb "," c.
Proof.
  destruct (Ascii.eqb "," c) eqn:Hc; cbn [HasPrefix]; rewrite Hc; [by destruct s | done].
Qed.

Lemma splitFrom_nonempty (s cur : string) : splitFrom "," s 0 cur <> [].
Proof.
  revert cur. induction s as [|c s IH]; intros cur; [done |].
  cbn [splitFrom]. destruct (HasPrefix (String c s) ","); [done | apply IH].
Qed.

Lemma concat_cons sep x (l : list string) :
  l <> [] -> String.concat sep (x :: l) = (x +:+ sep +:+ String.concat sep l)%string.
Proof. by destruct l. Qed.

(** Joining the pieces with commas gives the string back. *)
Lemma splitFrom_join (s cur : string) :
  String.concat "," (splitFrom "," s 0 cur) = (String.rev cur +:+ s)%string.
Proof.
  revert cur. induction s as [|c s IH]; intros cur.
  - simpl. by rewrite string_app_nil_r.
  - cbn [splitFrom]. rewrite HasPrefix_comma.
    destruct (Ascii.eqb_spec "," c) as [<- | Hc].
    + cbn [String.length Nat.sub].
      rewrite concat_cons by apply splitFrom_nonempty. by rewrite IH.
    + rewrite IH, rev_String, string_app_assoc. by rewrite app_String.
Qed.

(** A string without a comma is a single piece. *)
Lemma splitFrom_single (s cur : string) :
  Contains s "," = false -> splitFrom "," s 0 cur = [(String.rev cur +:+ s)%string].
Proof.
  revert cur. induction s as [|c s IH]; intros cur Hs.
  - simpl. by rewrite string_app_nil_r.
  - rewrite Contains_cons in Hs. apply orb_false_iff in Hs as [Hc Hs].
    cbn [splitFrom]. rewrite Hc, (IH _ Hs), rev_String, string_app_assoc.
    by rewrite app_String.
Qed.

(** A trailing comma leaves an empty last piece. *)
Lemma splitFrom_trailing (s cur : string) :
  ""%string ∈ splitFrom "," (s +:+ ",") 0 cur.
Proof.
  revert cur. induction s as [|c s IH]; intros cur.
  - right. by left.
  - rewrite app_String. cbn [splitFrom].
    destruct (HasPrefix (String c (s +:+ ",")) ","); [right |]; apply IH.
Qed.

(** X1. The cached exporter takes the pieces of [-names] between the commas
    as they are: a name list that ends in a comma has the empty string among
    its targets, the empty string occurs in every name, and so a refresh
    caches every enumerated process whose name resolves. *)
Theorem trailing_comma_watches_everything (names : string) (os : process.OS)
    (allProcs : list process.Process) :
  process.Processes os = Ok allProcs ->
  let c := Cached.NewProcessCollector (Split (names +:+ ",") ",") in
  (forall name, Cached.isTarget c name = true) /\
  exists c',
    Cached.refreshProcessCache os c = ([], Ret (tt, c')) /\
    forall p, p ∈ allProcs -> is_ok (process.Name os p) = true ->
              process.Pid p ∈ dom (Cached.cachedProcs c').
Proof.
  intros Hok c.
  assert (Hall : forall name, Cached.isTarget c name = true).
  { intros name. apply isTargetIn_spec. exists ""%string.
    split; [apply splitFrom_trailing | by exists ""%string, name]. }
  split; [exact Hall |].
  exists (Cached.setCachedProcs c (fold_left (Cached.scanStep c os) allProcs ∅)).
  split; [unfold Cached.refreshProcessCache; by rewrite Hok |].
  intros p Hp Hname. cbn [Cached.cachedProcs Cached.setCachedProcs].
  apply scan_dom. right. exists p. split; [done |]. split; [done |].
  destruct (process.Name os p) as [name|] eqn:Hn; [| done].
  exists name. split; [done | apply Hall].
Qed.

Lemma trailing_comma_watches_everything_witness :
  process.Processes osRunning = Ok [pid7] /\
  forall name,
    Cached.isTarget (Cached.NewProcessCollector (Split "mysqld," ",")) name = true.
Proof.
  split; [reflexivity |].
  exact (proj1 (trailing_comma_watches_everything "mysqld" osRunning [pid7] eq_refl)).
Defined.

Section NodeFilter.
Import NodeProcess.
Context `{Unicode}.

Lemma includeOf_single (t : string) :
  t <> ""%string -> Contains t "," = false -> TrimSpace t = t ->
  includeOf t = {[ normalizeName t ]}.
Proof.
  intros Ht Hcomma Htrim. unfold includeOf, Split.
  destruct (String.eqb_spec t "") as [-> | _]; [done |].
  cbn [negb]. rewrite (splitFrom_single _ _ Hcomma).
  change (String.rev "" +:+ t)%string with t. cbn [fold_left].
  unfold includeStep. rewrite Htrim.
  destruct (String.eqb_spec t "") as [-> | _]; [done |].
  apply union_empty_r_L.
Qed.

Lemma includeOf_blank (names : string) :
  (forall part, part ∈ Split names "," -> TrimSpace part = ""%string) ->
  includeOf names = ∅.
Proof.
  intros Hblank. unfold includeOf.
  destruct (negb (String.eqb names "")); [| done].
  apply set_eq. intros x. rewrite includeStep_fold, elem_of_empty. split; [| done].
  intros [[] | (part & Hpart & Hne & _)]. by destruct Hne, (Hblank part).
Qed.

End NodeFilter.

(** X2. In the node-process exporter, a [-names] value that is one name
    (not empty, no comma, nothing for [TrimSpace] to remove) selects exactly
    the processes whose normalized name is the normalized form of that name:
    the target and the process name go through the same normalization. *)
Theorem single_name_selects_its_normal_form `{Unicode} (t name : string) :
  t <> ""%string -> Contains t "," = false -> TrimSpace t = t ->
  NodeProcess.matches (NodeProcess.NewProcessCollector (NodeProcess.includeOf t)) name
  = true
  <-> NodeProcess.normalizeName name = NodeProcess.normalizeName t.
Proof.
  intros Ht Hcomma Htrim. unfold NodeProcess.matches.
  cbn [NodeProcess.includeNames NodeProcess.NewProcessCollector].
  rewrite (includeOf_single t Ht Hcomma Htrim), size_singleton. cbn [Nat.ltb Nat.leb].
  rewrite bool_decide_eq_true. apply elem_of_singleton.
Qed.

Lemma single_name_selects_its_normal_form_witness :
  @NodeProcess.matches asciiOnly
    (NodeProcess.NewProcessCollector (@NodeProcess.includeOf asciiOnly "MySQLd.exe"))
    "mysqld" = true.
Proof.
  apply (@single_name_selects_its_normal_form asciiOnly "MySQLd.exe" "mysqld");
    [discriminate | reflexivity | reflexivity | reflexivity].
Defined.

(** X3. In the node-process exporter, a [-names] value all of whose pieces
    are blank (only commas and white space) gives an empty set of names, and
    with it no filter at all: every process name passes. *)
Theorem blank_names_select_everything `{Unicode} (names name : string) :
  (forall part, part ∈ Split names "," -> TrimSpace part = ""%string) ->
  NodeProcess.includeOf names = ∅ /\
  NodeProcess.matches (NodeProcess.NewProcessCollector (NodeProcess.includeOf names))
    name = true.
Proof.
  intros Hblank. pose proof (includeOf_blank names Hblank) as Hempty.
  split; [exact Hempty |]. unfold NodeProcess.matches.
  cbn [NodeProcess.includeNames NodeProcess.NewProcessCollector].
  by rewrite Hempty, size_empty.
Qed.

Lemma blank_names_select_everything_witness :
  @NodeProcess.matches asciiOnly
    (NodeProcess.NewProcessCollector (@NodeProcess.includeOf asciiOnly " , ,"))
    "sshd" = true.
Proof.
  refine (proj2 (@blank_names_select_everything asciiOnly " , ," "sshd" _)).
  intros part Hpart. vm_compute in Hpart.
  repeat (apply elem_of_cons in Hpart as [-> | Hpart]; [reflexivity |]).
  by apply elem_of_nil in Hpart.
Defined.

(** ** Startup of the cached exporter *)

Lemma cached_main_serves (fl : Cached.Flags) (os : process.OS)
    (serve : string -> option error) :
  Cached.procNames fl <> ""%string -> 0 < Cached.refreshInterval fl ->
  let targetList := Split (Cached.procNames fl) "," in
  Cached.main fl os serve tt
  = (scanLog os ++
     [Spawn (Cached.refreshInterval fl);
      Register (Cached.Describe (Cached.NewProcessCollector targetList));
      Handle "/metrics";
      Log "Starting Optimized Process Exporter on %s" [AStr (Cached.addr fl)];
      Log "Monitoring: %v" [AStrs targetList];
      Log "Process list refresh interval: %v" [ADuration (Cached.refreshInterval fl)];
      ListenAndServe (Cached.addr fl)] ++
     serveLog "Error starting server: %v" serve (Cached.addr fl),
     serveOutcome serve (Cached.addr fl)).
Proof.
  intros Hnames Hint targetList.
  unfold Cached.main, Cached.StartCacheUpdater, Cached.refreshProcessCache,
    scanLog, serveLog, serveOutcome, http_ListenAndServe.
  destruct (String.eqb_spec (Cached.procNames fl) "") as [? | _]; [done |].
  destruct (Z.leb_spec (Cached.refreshInterval fl) 0) as [? | _]; [lia |].
  fold targetList.
  destruct (process.Processes os) as [allProcs | err], (serve (Cached.addr fl));
    reflexivity.
Qed.

(** One refresh cycle, whatever the enumeration answers. *)
Lemma refreshProcessCache_run os c :
  Cached.refreshProcessCache os c
  = (scanLog os,
     Ret (tt, match process.Processes os with
              | Ok allProcs =>
                  Cached.setCachedProcs c
                    (fold_left (Cached.scanStep c os) allProcs ∅)
              | Err _ => c
              end)).
Proof.
  unfold Cached.refreshProcessCache, scanLog.
  by destruct (process.Processes os).
Qed.




(** X5. Started with names and a refresh interval that is not positive, the
    cached exporter panics in [StartCacheUpdater], after the first refresh
    and before anything is registered or served. *)
Theorem nonpositive_interval_panics (fl : Cached.Flags) (os : process.OS)
    (serve : string -> option error) :
  Cached.procNames fl <> ""%string -> Cached.refreshInterval fl <= 0 ->
  Cached.main fl os serve tt
  = (scanLog os, Panic "non-positive interval for NewTicker").
Proof.
  intros Hnames Hint.
  unfold Cached.main, Cached.StartCacheUpdater, Cached.refreshProcessCache, scanLog.
  destruct (String.eqb_spec (Cached.procNames fl) "") as [? | _]; [done |].
  destruct (Z.leb_spec (Cached.refreshInterval fl) 0) as [_ | ?]; [| lia].
  by destruct (process.Processes os).
Qed.

Lemma nonpositive_interval_panics_witness :
  Cached.main {| Cached.addr := ":9002"; Cached.procNames := "nginx";
                 Cached.refreshInterval := 0 |} osRunning (fun _ => None) tt
  = ([], Panic "non-positive interval for NewTicker").
Proof.
  apply (nonpositive_interval_panics
           {| Cached.addr := ":9002"; Cached.procNames := "nginx";
              Cached.refreshInterval := 0 |} osRunning (fun _ => None));
    [discriminate | reflexivity].
Defined.

(** X6. The targets of the cached exporter are the pieces of [-names]
    between its commas, untrimmed: the list it announces in its log is never
    empty, and joined with commas it is the flag value again. *)
Theorem targets_are_the_pieces (fl : Cached.Flags) (os : process.OS)
    (serve : string -> option error) :
  Cached.procNames fl <> ""%string -> 0 < Cached.refreshInterval fl ->
  exists targetList,
    Log "Monitoring: %v" [AStrs targetList] ∈ (Cached.main fl os serve tt).1 /\
    targetList <> [] /\
    String.concat "," targetList = Cached.procNames fl /\
    (Contains (Cached.procNames fl) "," = false ->
     targetList = [Cached.procNames fl]).
Proof.
  intros Hnames Hint. exists (Split (Cached.procNames fl) ",").
  rewrite (cached_main_serves fl os serve Hnames Hint). cbn [fst].
  split_and!.
  - apply elem_of_app. right. apply elem_of_app. left. do 4 right. by left.
  - apply splitFrom_nonempty.
  - apply splitFrom_join.
  - intros Hcomma. unfold Split. by rewrite splitFrom_single.
Qed.

Lemma targets_are_the_pieces_witness :
  exists targetList,
    Log "Monitoring: %v" [AStrs targetList]
      ∈ (Cached.main {| Cached.addr := ":9002"; Cached.procNames := "nginx, mysqld";
                        Cached.refreshInterval := 30000000000 |} osRunning
                     (fun _ => None) tt).1 /\
    String.concat "," targetList = "nginx, mysqld"%string.
Proof.
  destruct (targets_are_the_pieces
              {| Cached.addr := ":9002"; Cached.procNames := "nginx, mysqld";
                 Cached.refreshInterval := 30000000000 |} osRunning (fun _ => None))
    as (targetList & Hlog & _ & Hjoin & _); [discriminate | reflexivity |].
  by exists targetList.
Defined.

(** ** Scrapes of the cached exporter *)

Lemma length_flat_map_le {A B} (f : A -> list B) (n : nat) l :
  (forall x, length (f x) <= n)%nat -> (length (flat_map f l) <= n * length l)%nat.
Proof.
  intros Hf. induction l as [|x l IH]; simpl; [lia |].
  rewrite length_app. specialize (Hf x). lia.
Qed.

Lemma targetSamples_kind c os target s :
  s ∈ targetSamples c os target ->
  is_ok (process.Times os (Cached.Proc target)) = true /\
  exists d vt v, s = constMetric d vt v target /\ (d, vt) ∈ sampleKinds c.
Proof.
  unfold targetSamples, sampleKinds.
  destruct (process.Times os (Cached.Proc target)); [| by intros ?%elem_of_nil].
  unfold whenOk at 1. rewrite !elem_of_app. split; [done |].
  repeat match goal with
         | H : _ \/ _ |- _ => destruct H as [H | H]
         | H : _ ∈ whenOk ?r _ |- _ => destruct r; simpl in H
         | H : _ ∈ _ :: _ |- _ => apply elem_of_cons in H as [-> | H]
         | H : _ ∈ [] |- _ => by apply elem_of_nil in H
         end;
    eexists _, _, _; (split; [reflexivity |]);
    apply list_elem_of_In; simpl; auto 10.
Qed.

Lemma targetSamples_shape names m os target s :
  let c := Cached.setCachedProcs (Cached.NewProcessCollector names) m in
  s ∈ targetSamples c os target ->
  is_ok (process.Times os (Cached.Proc target)) = true /\
  desc s ∈ Cached.Describe c /\
  labelValues s = [Cached.Name target; Itoa (process.Pid (Cached.Proc target))] /\
  (valueType s = CounterValue <->
   desc s = Cached.cpuUser c \/ desc s = Cached.cpuSystem c).
Proof.
  intros c Hs.
  destruct (targetSamples_kind c os target s Hs) as (Hlive & d & vt & v & -> & Hk).
  split; [done |]. unfold sampleKinds in Hk.
  repeat (apply elem_of_cons in Hk as [[= -> ->] | Hk];
          [split; [apply list_elem_of_In; simpl; auto 10 |];
           split; [done |]; simpl; split;
           [intros ?; try discriminate; auto
           | intros [? | ?]; try discriminate; auto] |]).
  by apply elem_of_nil in Hk.
Qed.

Lemma length_targetSamples c os target :
  (length (targetSamples c os target) <= 8)%nat.
Proof.
  unfold targetSamples, whenOk.
  destruct (process.Times os (Cached.Proc target)); [| simpl; lia].
  destruct (process.MemoryInfo os (Cached.Proc target)),
    (process.NumThreads os (Cached.Proc target)),
    (process.NumFDs os (Cached.Proc target)),
    (process.CreateTime os (Cached.Proc target)); simpl; lia.
Qed.

(** X7. A scrape of the cached exporter reports cached processes only, under
    their cached names: every sample it sends belongs to an entry of the
    cache whose CPU times could be read, carries that entry's name and PID as
    its two label values and a descriptor that [Describe] announces, and is a
    counter exactly for the two CPU-time metrics. It sends at most eight
    samples per entry and writes nothing to the log. *)
Theorem scrape_reports_cached_entries (rt : MapRange Cached.CachedProcess)
    (os : process.OS) (names : list string) (m : gmap Z Cached.CachedProcess) :
  let c := Cached.setCachedProcs (Cached.NewProcessCollector names) m in
  let run := Cached.Collect rt os c in
  (forall s, s ∈ sent run.1 ->
     desc s ∈ Cached.Describe c /\
     (valueType s = CounterValue <->
      desc s = Cached.cpuUser c \/ desc s = Cached.cpuSystem c) /\
     exists pid e,
       m !! pid = Some e /\
       is_ok (process.Times os (Cached.Proc e)) = true /\
       labelValues s = [Cached.Name e; Itoa (process.Pid (Cached.Proc e))]) /\
  (length (sent run.1) <= 8 * size m)%nat /\
  logs run.1 = [].
Proof.
  intros c run. subst run.
  pose proof (twoLabels_New names m) as Hl. fold c in Hl.
  split_and!.
  - intros s Hs.
    destruct (Collect_sent_elem c os Hl rt s Hs) as (target & Ht & Hin).
    cbn [Cached.cachedProcs Cached.setCachedProcs c] in Ht.
    destruct (targetSamples_shape names m os target s Hin) as (Hlive & Hd & Hlv & Hv).
    split; [done |]. split; [done |].
    destruct (range_targets rt m target Ht) as [pid Hpid].
    by exists pid, target.
  - destruct (Collect_sent c os Hl rt) as (k & -> & _).
    cbn [Cached.cachedProcs Cached.setCachedProcs c].
    etransitivity; [apply (length_flat_map_le _ 8) |].
    + intros target.
      destruct (collectTarget_sent c os Hl target) as [_ [-> | ->]];
        [apply length_targetSamples | simpl; lia].
    + apply Nat.mul_le_mono_l.
      rewrite length_take, length_fmap, (range_perm rt m), length_map_to_list. lia.
  - by destruct (Collect_sent c os Hl rt) as (k & _ & Hlogs).
Qed.

Lemma collectTarget_ext os os' target :
  process.Times os (Cached.Proc target) = process.Times os' (Cached.Proc target) ->
  process.MemoryInfo os (Cached.Proc target)
  = process.MemoryInfo os' (Cached.Proc target) ->
  process.NumThreads os (Cached.Proc target)
  = process.NumThreads os' (Cached.Proc target) ->
  process.NumFDs os (Cached.Proc target) = process.NumFDs os' (Cached.Proc target) ->
  process.CreateTime os (Cached.Proc target)
  = process.CreateTime os' (Cached.Proc target) ->
  Cached.collectTarget os target = Cached.collectTarget os' target.
Proof. unfold Cached.collectTarget. by intros -> -> -> -> ->. Qed.

Lemma forEach_ext {S A} (f g : A -> M S unit) l :
  (forall x, x ∈ l -> f x = g x) -> forEach l f = forEach l g.
Proof.
  induction l as [|x l IH]; intros Hfg; [done |]. simpl.
  rewrite (Hfg x) by left. rewrite IH; [done |]. intros y Hy. apply Hfg. by right.
Qed.

Lemma scan_ext c os os' allProcs acc :
  (forall p, p ∈ allProcs -> process.Name os p = process.Name os' p) ->
  fold_left (Cached.scanStep c os) allProcs acc
  = fold_left (Cached.scanStep c os') allProcs acc.
Proof.
  revert acc. induction allProcs as [|p l IH]; intros acc Hname; [done |]. simpl.
  unfold Cached.scanStep at 2 4. rewrite (Hname p) by left.
  apply IH. intros q Hq. apply Hname. by right.
Qed.

(** X8. The two halves of the cached exporter keep to their own queries. A
    scrape never enumerates processes and never resolves a name: what it does
    is fixed by the cache and by the five statistic queries on the cached
    handles. A refresh never reads a statistic: what it does is fixed by the
    enumeration and the names of the enumerated processes. *)
Theorem scrape_and_refresh_keep_apart (rt : MapRange Cached.CachedProcess)
    (os os' : process.OS) (c : Cached.ProcessCollector) :
  ((forall pid e, Cached.cachedProcs c !! pid = Some e ->
      let p := Cached.Proc e in
      process.Times os p = process.Times os' p /\
      process.MemoryInfo os p = process.MemoryInfo os' p /\
      process.NumThreads os p = process.NumThreads os' p /\
      process.NumFDs os p = process.NumFDs os' p /\
      process.CreateTime os p = process.CreateTime os' p) ->
   Cached.Collect rt os c = Cached.Collect rt os' c) /\
  (process.Processes os = process.Processes os' ->
   (forall allProcs p, process.Processes os = Ok allProcs -> p ∈ allProcs ->
                       process.Name os p = process.Name os' p) ->
   Cached.refreshProcessCache os c = Cached.refreshProcessCache os' c).
Proof.
  split.
  - intros Hsame. unfold Cached.Collect, bind, get.
    rewrite (forEach_ext (Cached.collectTarget os) (Cached.collectTarget os')); [done |].
    intros target [pid Hpid]%range_targets.
    destruct (Hsame pid target Hpid) as (? & ? & ? & ? & ?).
    by apply collectTarget_ext.
  - intros Hprocs Hnames. unfold Cached.refreshProcessCache. rewrite <- Hprocs.
    destruct (process.Processes os) as [allProcs | err]; [| done].
    unfold bind, get, put.
    rewrite (scan_ext c os os' allProcs ∅); [done |].
    intros p Hp. by apply (Hnames allProcs).
Qed.

Lemma scrape_and_refresh_keep_apart_witness :
  Cached.Collect rangeCanonical osRunning watching7
  = Cached.Collect rangeCanonical osNoTable watching7.
Proof.
  apply (proj1 (scrape_and_refresh_keep_apart rangeCanonical osRunning osNoTable
                  watching7)).
  intros pid e _. repeat split.
Defined.

Lemma fmap_flat_map {A B C} (g : B -> C) (f : A -> list B) l :
  g <$> flat_map f l = flat_map (fun x => g <$> f x) l.
Proof. induction l as [|x l IH]; [done |]. simpl. by rewrite fmap_app, IH. Qed.

(** Lists made for distinct keys, each free of repetitions and marked with
    its key, make a list free of repetitions. *)
Lemma NoDup_flat_map {A B K} (key : A -> K) (mark : B -> K) (f : A -> list B) l :
  NoDup (key <$> l) ->
  (forall x y, x ∈ l -> y ∈ f x -> mark y = key x) ->
  (forall x, x ∈ l -> NoDup (f x)) ->
  NoDup (flat_map f l).
Proof.
  induction l as [|x l IH]; intros Hkeys Hmark Hnd; [constructor |]. simpl.
  rewrite fmap_cons in Hkeys. apply NoDup_cons in Hkeys as [Hx Hkeys].
  apply NoDup_app. split_and!.
  - apply Hnd. by left.
  - intros y Hy Hy'. apply list_elem_of_In, in_flat_map in Hy' as [x' [Hx' Hy']].
    apply list_elem_of_In in Hx', Hy'. apply Hx.
    rewrite <- (Hmark x y) by (done || by left).
    rewrite (Hmark x' y) by (done || by right).
    by apply list_elem_of_fmap_2.
  - apply IH; [done | |]; intros; [apply Hmark | apply Hnd]; try done; by right.
Qed.

Lemma NoDup_series_targetSamples names m os target :
  let c := Cached.setCachedProcs (Cached.NewProcessCollector names) m in
  NoDup (series <$> targetSamples c os target).
Proof.
  intros c. apply (NoDup_fmap_1 fst). unfold targetSamples, whenOk.
  destruct (process.Times os (Cached.Proc target)); [| constructor].
  destruct (process.MemoryInfo os (Cached.Proc target)),
    (process.NumThreads os (Cached.Proc target)),
    (process.NumFDs os (Cached.Proc target)),
    (process.CreateTime os (Cached.Proc target));
    simpl; apply (bool_decide_unpack _); by vm_compute.
Qed.

(** X9. When every entry of the cache is stored under the PID of its own
    handle, as it is in every cache a refresh builds, no two samples of a
    scrape belong to the same series: the pairs of metric name and label
    values are all different. *)
Theorem scrape_has_no_duplicate_series (rt : MapRange Cached.CachedProcess)
    (os : process.OS) (names : list string) (m : gmap Z Cached.CachedProcess) :
  (forall pid e, m !! pid = Some e -> process.Pid (Cached.Proc e) = pid) ->
  let c := Cached.setCachedProcs (Cached.NewProcessCollector names) m in
  NoDup (series <$> sent (Cached.Collect rt os c).1) /\
  forall os' allProcs,
    process.Processes os' = Ok allProcs ->
    exists c',
      Cached.refreshProcessCache os' c = ([], Ret (tt, c')) /\
      forall pid e, Cached.cachedProcs c' !! pid = Some e ->
                    process.Pid (Cached.Proc e) = pid.
Proof.
  intros Hkeyed c. pose proof (twoLabels_New names m) as Hl. fold c in Hl. split.
  - destruct (Collect_sent c os Hl rt) as (k & -> & _). rewrite fmap_flat_map.
    cbn [Cached.cachedProcs Cached.setCachedProcs c].
    apply (NoDup_flat_map
             (fun target => Some (Itoa (process.Pid (Cached.Proc target))))
             (fun ser : string * list string => ser.2 !! 1%nat)).
    + assert (Hpids : (fun target : Cached.CachedProcess =>
                         Some (Itoa (process.Pid (Cached.Proc target))))
                      <$> (range rt m).*2
                      = (fun k => Some (Itoa k)) <$> (range rt m).*1).
      { rewrite <- !list_fmap_compose. apply Forall_fmap_ext_1, Forall_forall.
        intros [pid e] Hin. simpl. apply (range_lookup rt) in Hin.
        by rewrite (Hkeyed pid e Hin). }
      rewrite fmap_take, Hpids.
      eapply sublist_NoDup; [| apply sublist_take]. apply NoDup_fmap_2.
      * intros k1 k2 [= Heq]. by apply (inj pretty) in Heq.
      * rewrite (range_perm rt m). apply NoDup_fst_map_to_list.
    + intros target ser _ (s & -> & Hs)%list_elem_of_fmap.
      destruct (collectTarget_sent c os Hl target) as [_ [Heq | Heq]];
        rewrite Heq in Hs; [| by apply elem_of_nil in Hs].
      by apply targetSamples_pid in Hs.
    + intros target _.
      destruct (collectTarget_sent c os Hl target) as [_ [-> | ->]];
        [apply NoDup_series_targetSamples | constructor].
  - intros os' allProcs Hok.
    exists (Cached.setCachedProcs c (fold_left (Cached.scanStep c os') allProcs ∅)).
    split; [unfold Cached.refreshProcessCache; by rewrite Hok |].
    intros pid e He.
    destruct (scan_entries c os' allProcs ∅) with pid e as [? _]; [| done | done].
    intros ? ? Hempty. by rewrite lookup_empty in Hempty.
Qed.

(** ** The background updater *)

Lemma scanStep_setCachedProcs c m os :
  Cached.scanStep (Cached.setCachedProcs c m) os = Cached.scanStep c os.
Proof. reflexivity. Qed.

Lemma setCachedProcs_twice c m m' :
  Cached.setCachedProcs (Cached.setCachedProcs c m) m' = Cached.setCachedProcs c m'.
Proof. reflexivity. Qed.

Lemma setCachedProcs_same c : c = Cached.setCachedProcs c (Cached.cachedProcs c).
Proof. by destruct c. Qed.

(** X10. The updater serves the ticks before the cancellation, each by a
    refresh, and no tick after it. It returns exactly when the cancellation
    is among its signals, and is left waiting in its [select] when it is not;
    no refresh stops it. In either case it has sent no sample, it has logged
    once for every enumeration that failed, and the collector has its
    targets and the cache of the last refresh whose enumeration succeeded:
    the scan of the processes enumerated then, whatever the cache held
    before. When no enumeration succeeded the cache is the one the updater
    started with. *)
Theorem updater_keeps_the_last_scan (signals : list signal)
    (c : Cached.ProcessCollector) :
  exists tr cache,
    updaterLoop signals c
    = (tr, (if cancelled signals then Stopped else Waiting)
             (Cached.setCachedProcs c cache)) /\
    sent tr = [] /\
    length (logs tr)
    = length (List.filter (fun os => negb (is_ok (process.Processes os)))
                          (ticksBefore signals)) /\
    match last (List.filter (fun os => is_ok (process.Processes os))
                            (ticksBefore signals)) with
    | None => cache = Cached.cachedProcs c
    | Some os =>
        exists allProcs,
          process.Processes os = Ok allProcs /\
          cache = fold_left (Cached.scanStep c os) allProcs ∅
    end.
Proof.
  revert c. induction signals as [| [os |] rest IH]; intros c.
  - exists [], (Cached.cachedProcs c). split_and!; try done.
    simpl. by rewrite <- setCachedProcs_same.
  - destruct (process.Processes os) as [allProcs | err] eqn:Hos.
    + destruct (IH (Cached.setCachedProcs c
                      (fold_left (Cached.scanStep c os) allProcs ∅)))
        as (tr & cache & Hrun & Hsent & Hlogs & Hlast).
      exists tr, cache. cbn [updaterLoop ticksBefore List.filter cancelled existsb orb].
      rewrite Hos. cbn [is_ok negb]. split_and!; try done.
      * rewrite refreshProcessCache_run, Hos, Hrun.
        unfold scanLog. by rewrite Hos.
      * rewrite last_cons.
        destruct (last _) as [os' |]; [exact Hlast |].
        exists allProcs. split; [done | exact Hlast].
    + destruct (IH c) as (tr & cache & Hrun & Hsent & Hlogs & Hlast).
      exists (Log "Error scanning processes: %v" [AErr err] :: tr), cache.
      cbn [updaterLoop ticksBefore List.filter cancelled existsb orb].
      rewrite Hos. cbn [is_ok negb]. split_and!; try done.
      * rewrite refreshProcessCache_run, Hos, Hrun.
        unfold scanLog. by rewrite Hos.
      * simpl. by rewrite Hlogs.
  - exists [], (Cached.cachedProcs c). split_and!; try done.
    simpl. by rewrite <- setCachedProcs_same.
Qed.

(** ** Scrapes of the node-process exporter *)

Section NodeScrape.
Import NodeProcess.
Context `{Unicode}.
Variables (pc : ProcessCollector) (os : process.OS).
Hypothesis Hlabels : fourLabels pc.

Lemma procSamples_elem proc s :
  s ∈ procSamples pc os proc ->
  desc s ∈ Describe pc /\
  exists name,
    process.Name os proc = Ok name /\ matches pc name = true /\
    labelValues s = labelValuesOf os proc name.
Proof.
  unfold procSamples.
  destruct (process.Name os proc) as [name|e] eqn:Hname; [| by intros ?%elem_of_nil].
  destruct (matches pc name) eqn:Hm; [| by intros ?%elem_of_nil].
  unfold cpuSamples, memorySamples, openFilesSamples, ioSamples.
  rewrite !elem_of_app. intros Hs.
  assert (Hd : desc s ∈ Describe pc /\ labelValues s = labelValuesOf os proc name).
  { repeat match goal with
           | H : _ \/ _ |- _ => destruct H as [H | H]
           | H : _ ∈ match ?r with Ok _ => _ | Err _ => _ end |- _ => destruct r
           | H : _ ∈ (if ?b then _ else _) |- _ => destruct b
           | H : _ ∈ _ :: _ |- _ => apply elem_of_cons in H as [-> | H]
           | H : _ ∈ [] |- _ => by apply elem_of_nil in H
           end;
      (split; [apply list_elem_of_In; simpl; auto 10 | reflexivity]). }
  split; [apply Hd |]. exists name. split_and!; [done | done | apply Hd].
Qed.

End NodeScrape.

(** X11. A scrape of the node-process exporter enumerates afresh and reports
    only what it enumerated and let through: every sample it sends carries a
    descriptor that [Describe] announces and the labels of a process of this
    enumeration whose name resolved and passed the filter. It never assigns
    to the collector, and it returns when the label values of the processes
    it reports are valid UTF-8. When the enumeration fails it logs once,
    sends nothing and returns. *)
Theorem node_scrape_reports_what_it_enumerates `{Unicode} (os : process.OS)
    (include : gset string) :
  let pc := NodeProcess.NewProcessCollector include in
  let run := NodeProcess.Collect os pc in
  (forall s, s ∈ sent run.1 ->
     desc s ∈ NodeProcess.Describe pc /\
     exists processes proc name,
       process.Processes os = Ok processes /\ proc ∈ processes /\
       process.Name os proc = Ok name /\ NodeProcess.matches pc name = true /\
       labelValues s = labelValuesOf os proc name) /\
  (forall r, run.2 = Ret r -> r = (tt, pc)) /\
  ((forall processes proc name,
      process.Processes os = Ok processes -> proc ∈ processes ->
      process.Name os proc = Ok name -> NodeProcess.matches pc name = true ->
      forallb ValidString (labelValuesOf os proc name) = true) ->
   run.2 = Ret (tt, pc)) /\
  (forall err, process.Processes os = Err err ->
     run = ([Log "Failed to get processes: %v" [AErr err]], Ret (tt, pc))).
Proof.
  intros pc run. subst run.
  pose proof (fourLabels_New include) as Hl. fold pc in Hl.
  destruct (process.Processes os) as [processes | err] eqn:Hos.
  - split_and!; [| | | done].
    + intros s Hs.
      destruct (node_Collect_sent_elem pc os Hl processes s Hos Hs)
        as (proc & Hproc & Hin).
      destruct (procSamples_elem pc os proc s Hin) as (Hd & name & Hname & Hm & Hlv).
      split; [done |]. by exists processes, proc, name.
    + intros r Hr.
      destruct (node_Collect_trace pc os Hl processes Hos) as (k & _ & [Ho | [msg Ho]]);
        rewrite Ho in Hr; [by injection Hr as <- | done].
    + intros Hvalid.
      destruct (node_Collect_sends pc os Hl processes Hos) as (tr & Hrun & _).
      { intros proc name. by apply (Hvalid processes). }
      unfold runs in Hrun. by rewrite Hrun.
  - unfold NodeProcess.Collect. rewrite Hos. cbn [fst snd log_Printf emit].
    split_and!; [by intros s ?%elem_of_nil | by intros r [= <-] | done
                | by intros ? [= ->]].
Qed.




Lemma procSamples_pid `{Unicode} pc os proc s :
  s ∈ procSamples pc os proc -> labelValues s !! 1%nat = Some (Itoa (process.Pid proc)).
Proof.
  unfold procSamples.
  destruct (process.Name os proc) as [name|e]; [| by intros ?%elem_of_nil].
  destruct (NodeProcess.matches pc name); [| by intros ?%elem_of_nil].
  unfold cpuSamples, memorySamples, openFilesSamples, ioSamples.
  rewrite !elem_of_app. intros Hs.
  repeat match goal with
         | H : _ \/ _ |- _ => destruct H as [H | H]
         | H : _ ∈ match ?r with Ok _ => _ | Err _ => _ end |- _ => destruct r
         | H : _ ∈ (if ?b then _ else _) |- _ => destruct b
         | H : _ ∈ _ :: _ |- _ => apply elem_of_cons in H as [-> | H]
         | H : _ ∈ [] |- _ => by apply elem_of_nil in H
         end; reflexivity.
Qed.

Lemma NoDup_series_procSamples `{Unicode} include os proc :
  NoDup (series <$> procSamples (NodeProcess.NewProcessCollector include) os proc).
Proof.
  apply (NoDup_fmap_1 fst). unfold procSamples.
  destruct (process.Name os proc) as [name|e]; [| constructor].
  destruct (NodeProcess.matches _ name); [| constructor].
  unfold cpuSamples, memorySamples, openFilesSamples, ioSamples.
  destruct (process.CPUPercent os proc) as [v1 |],
    (NodeProcess.getProcMemoryPercent os proc) as [v2 |],
    (process.OpenFiles os proc) as [files |], (process.IOCounters os proc);
    try destruct (0 <? v1)%float; try destruct (0 <? v2)%float;
    try destruct (0 <? Z.of_nat (length files));
    simpl; apply (bool_decide_unpack _); by vm_compute.
Qed.

(** X13. When the enumeration lists every PID once, no two samples of a
    scrape of the node-process exporter belong to the same series. *)
Theorem node_scrape_has_no_duplicate_series `{Unicode} (os : process.OS)
    (include : gset string) (processes : list process.Process) :
  process.Processes os = Ok processes ->
  NoDup (process.Pid <$> processes) ->
  NoDup (series <$>
         sent (NodeProcess.Collect os (NodeProcess.NewProcessCollector include)).1).
Proof.
  intros Hos Hpids.
  pose proof (fourLabels_New include) as Hl.
  destruct (node_Collect_trace _ os Hl processes Hos) as (k & -> & _).
  rewrite sent_flat_map, fmap_flat_map.
  apply (NoDup_flat_map (fun proc => Some (Itoa (process.Pid proc)))
           (fun ser : string * list string => ser.2 !! 1%nat)).
  - rewrite fmap_take. eapply sublist_NoDup; [| apply sublist_take].
    rewrite (list_fmap_compose process.Pid (fun k => Some (Itoa k))).
    apply NoDup_fmap_2; [| done].
    intros k1 k2 [= Heq]. by apply (inj pretty) in Heq.
  - intros proc ser _ (s & -> & Hs)%list_elem_of_fmap.
    destruct (collectProc_sent _ os Hl proc) as [Heq | Heq]; rewrite Heq in Hs;
      [| by apply elem_of_nil in Hs].
    by apply procSamples_pid in Hs.
  - intros proc _.
    destruct (collectProc_sent _ os Hl proc) as [-> | ->];
      [apply NoDup_series_procSamples | constructor].
Qed.

Lemma node_scrape_has_no_duplicate_series_witness :
  NoDup (series <$>
         sent (@NodeProcess.Collect asciiOnly osRunning
                 (NodeProcess.NewProcessCollector ∅)).1).
Proof.
  apply (@node_scrape_has_no_duplicate_series asciiOnly osRunning ∅ [pid7]);
    [reflexivity | apply (bool_decide_unpack _); by vm_compute].
Defined.

Lemma scrape_has_no_duplicate_series_witness :
  NoDup (series <$> sent (Cached.Collect rangeCanonical osRunning watching7).1).
Proof.
  refine (proj1 (scrape_has_no_duplicate_series rangeCanonical osRunning
                   ["nginx"%string] {[ 7 := nginx7 ]} _)).
  intros pid e [<- <-]%lookup_singleton_Some. reflexivity.
Defined.

(** ** The refresh cycle and the scrape, to the end *)

Section Outcome.
Import Cached Interleaving.
Variables (c : ProcessCollector) (os : process.OS) (pre : gmap Z CachedProcess).

Lemma refreshed_err err : process.Processes os = Err err -> refreshed c os pre = pre.
Proof. intros Herr. unfold refreshed, refreshProcessCache. by rewrite Herr. Qed.

Lemma refreshed_published cache : published c os cache -> refreshed c os pre = cache.
Proof.
  intros (allProcs & Hok & ->). unfold refreshed, refreshProcessCache.
  by rewrite Hok.
Qed.

Lemma outcome_inv_step s s' :
  inv c os pre s -> outcome_inv c os pre s -> step c os s s' ->
  outcome_inv c os pre s'.
Proof.
  intros (Hpre & Hr & _) Ho Hstep. unfold outcome_inv, refresher_inv in *.
  destruct Hstep as
    [s err Hpc Herr | s allProcs Hpc Hok | s allProcs Hpc l | s p todo l newCache Hpc Hl
    | s l Hpc | s l Hpc Hw Hrd | s l Hpc | s Hpc
    | s Hpc Hw | s Hpc | s m seen cache pid cached Hpc Hm Hc Hfresh
    | s m seen cache Hpc Hm Hall | s seen Hpc]; simpl; try done.
  - rewrite Hpc in Hr. rewrite Hr, Hpre. f_equal. symmetry. by eapply refreshed_err.
  - rewrite Hpc in Hr. destruct Hr as (_ & _ & cache & Hl & Hpub).
    rewrite Hl. f_equal. symmetry. by apply refreshed_published.
  - by rewrite Hpc in Ho.
Qed.

Lemma outcome_inv_reachable s : reachable c os pre s -> outcome_inv c os pre s.
Proof.
  intros Hreach.
  enough (inv c os pre s /\ outcome_inv c os pre s) by tauto.
  revert s Hreach. unfold reachable.
  apply (@rtc_ind_r _ (step c os)
           (fun s => inv c os pre s /\ outcome_inv c os pre s) (init pre)).
  - split; [apply inv_init | done].
  - intros s1 s2 _ Hstep [Hinv Ho]. split.
    + by apply (inv_step c os pre s1 s2).
    + by apply (outcome_inv_step s1 s2).
Qed.

Lemma range_next_or_end (cache : gmap Z CachedProcess) (seen : list (Z * CachedProcess)) :
  (exists pid cached, cache !! pid = Some cached /\ pid ∉ seen.*1) \/
  (forall pid, is_Some (cache !! pid) -> pid ∈ seen.*1).
Proof.
  destruct (decide (Forall (fun kv => kv.1 ∈ seen.*1) (map_to_list cache)))
    as [Hall | Hnot].
  - right. intros pid [cached Hc]. rewrite Forall_forall in Hall.
    by apply (Hall (pid, cached)), elem_of_map_to_list.
  - left. apply not_Forall_Exists in Hnot; [| intros kv; apply _].
    apply Exists_exists in Hnot as ([pid cached] & Hin & Hfresh).
    exists pid, cached. split; [by apply elem_of_map_to_list | done].
Qed.

Lemma refresher_can_step s :
  inv c os pre s -> lock_inv s -> inSection (spc s) = false ->
  rpc s = RReturned \/ exists s', step c os s s'.
Proof.
  intros (_ & Hr & _) (Hw & Hrd & _) Hout. unfold refresher_inv in Hr.
  rewrite Hout in Hrd.
  destruct (rpc s) as [| allProcs | [| p todo] l | l | l | |] eqn:Hpc; simpl in *.
  - right. destruct (process.Processes os) as [allProcs | err] eqn:Hos.
    + eexists. by eapply step_enumerate.
    + eexists. by eapply step_enumerate_err.
  - right. eexists. by eapply step_make.
  - right. eexists. by eapply step_filter_end.
  - right. destruct Hr as (_ & _ & scanned & _ & Hl). eexists. by eapply step_filter.
  - right. eexists. by eapply step_lock.
  - right. eexists. by eapply step_assign.
  - right. eexists. by eapply step_unlock.
  - by left.
Qed.

End Outcome.

(** X14. However the statements of a scrape fall between those of a refresh
    cycle, once the refresher has returned, the field [cachedProcs] refers
    to the cache that [refreshProcessCache] leaves when it runs alone on the
    cache [pre]: the scrape has no influence on what is published. *)
Theorem interleaved_refresh_leaves_the_sequential_cache
    (c : Cached.ProcessCollector) (os : process.OS)
    (pre : gmap Z Cached.CachedProcess) (s : Interleaving.state) :
  Interleaving.reachable c os pre s ->
  Interleaving.rpc s = Interleaving.RReturned ->
  exists tr c',
    Cached.refreshProcessCache os (Cached.setCachedProcs c pre) = (tr, Ret (tt, c')) /\
    Interleaving.heap s !! Interleaving.cachedProcsRef s
    = Some (Cached.cachedProcs c').
Proof.
  intros Hreach Hpc.
  pose proof (outcome_inv_reachable c os pre s Hreach) as Ho.
  unfold outcome_inv in Ho. rewrite Hpc in Ho. rewrite Ho.
  unfold refreshed, Cached.refreshProcessCache.
  destruct (process.Processes os) as [allProcs | err]; by eexists _, _.
Qed.

Lemma interleaved_refresh_leaves_the_sequential_cache_witness :
  exists tr c',
    Cached.refreshProcessCache osGone (Cached.setCachedProcs watching7 {[ 7 := nginx7 ]})
    = (tr, Ret (tt, c')) /\
    Interleaving.heap afterBoth !! Interleaving.cachedProcsRef afterBoth
    = Some (Cached.cachedProcs c').
Proof.
  apply (interleaved_refresh_leaves_the_sequential_cache watching7 osGone
           {[ 7 := nginx7 ]} afterBoth);
    [apply afterBoth_reachable | reflexivity].
Defined.

(** X15. The refresh cycle and the scrape never block each other for good:
    in every state they can reach, either both are through, the refresher
    returned and the scraper out of its locked section, or one of them has
    a statement it can execute. *)
Theorem refresh_and_scrape_never_deadlock
    (c : Cached.ProcessCollector) (os : process.OS)
    (pre : gmap Z Cached.CachedProcess) (s : Interleaving.state) :
  Interleaving.reachable c os pre s ->
  finished s \/ exists s', Interleaving.step c os s s'.
Proof.
  intros Hreach.
  pose proof (inv_reachable c os pre s Hreach) as Hinv.
  pose proof (lock_inv_reachable c os pre s Hreach) as Hlock.
  destruct (Interleaving.spc s) as [| | m seen | seen | targets] eqn:Hspc.
  - (* waiting for the read lock: it is free, or the writer goes on *)
    destruct (Interleaving.writer s) eqn:Hw.
    + destruct (refresher_can_step c os pre s Hinv Hlock) as [Hret | Hstep];
        [by rewrite Hspc | | by right].
      destruct Hlock as (Hw' & _). by rewrite Hw, Hret in Hw'.
    + right. eexists. by eapply Interleaving.step_rlock.
  - right. eexists. by eapply Interleaving.step_range_begin.
  - right. destruct Hinv as (_ & _ & Hs). unfold scraper_inv in Hs.
    rewrite Hspc in Hs. destruct Hs as (cache & Hm & _).
    destruct (range_next_or_end cache seen) as [(pid & cached & Hc & Hfresh) | Hall].
    + eexists. by eapply Interleaving.step_range_next.
    + eexists. by eapply Interleaving.step_range_end.
  - right. eexists. by eapply Interleaving.step_runlock.
  - destruct (refresher_can_step c os pre s Hinv Hlock) as [Hret | Hstep];
      [by rewrite Hspc | | by right].
    left. split; [done | by exists targets].
Qed.

Lemma refresh_and_scrape_never_deadlock_witness :
  finished afterBoth \/
  exists s', Interleaving.step watching7 osGone afterBoth s'.
Proof.
  apply (refresh_and_scrape_never_deadlock watching7 osGone {[ 7 := nginx7 ]}),
    afterBoth_reachable.
Defined.

(** ** When a scrape ends in a panic *)

Lemma forEach_returned {S A} (body : A -> M S unit) (s : S) l :
  (forall x, x ∈ l ->
     (body x s).2 = Ret (tt, s) \/ exists msg, (body x s).2 = Panic msg) ->
  (forEach l body s).2 = Ret (tt, s) ->
  forall x, x ∈ l -> (body x s).2 = Ret (tt, s).
Proof.
  induction l as [|y l IH]; intros Hbody Hret x Hx; [by apply elem_of_nil in Hx |].
  cbn [forEach] in Hret. unfold bind in Hret.
  destruct (Hbody y) as [Hy | [msg Hy]]; [by left | |];
    destruct (body y s) as [tr o] eqn:Hrun; cbn [snd] in Hy; subst o; [| done].
  apply elem_of_cons in Hx as [-> | Hx]; [by rewrite Hrun |].
  apply IH; [intros z Hz; apply Hbody; by right | | done].
  by destruct (forEach l body s).
Qed.

(** X16. A scrape of the cached exporter either returns or panics, and it
    returns exactly when no entry of the cache has both readable CPU times
    and a name that is not valid UTF-8: such an entry makes
    [MustNewConstMetric] panic at its first sample. *)
Theorem scrape_returns_unless_a_name_is_invalid
    (rt : MapRange Cached.CachedProcess) (os : process.OS) (names : list string)
    (m : gmap Z Cached.CachedProcess) :
  let c := Cached.setCachedProcs (Cached.NewProcessCollector names) m in
  let run := Cached.Collect rt os c in
  (run.2 = Ret (tt, c) \/ exists msg, run.2 = Panic msg) /\
  (run.2 = Ret (tt, c) <->
   forall pid e, m !! pid = Some e ->
     is_ok (process.Times os (Cached.Proc e)) = true ->
     ValidString (Cached.Name e) = true).
Proof.
  intros c run. subst run.
  pose proof (twoLabels_New names m) as Hl. fold c in Hl.
  split; [by destruct (Collect_trace c os Hl rt) as (k & _ & Ho) |]. split.
  - intros Hret pid e He Hlive.
    assert (Hturn : (Cached.collectTarget os e c).2 = Ret (tt, c)).
    { apply (forEach_returned (Cached.collectTarget os) c (range rt m).*2).
      - intros target _. apply (collectTarget_outcome c os Hl).
      - revert Hret. unfold Cached.Collect, bind, get.
        cbn [Cached.cachedProcs Cached.setCachedProcs c].
        by destruct (forEach _ _ c).
      - apply list_elem_of_fmap. exists (pid, e). split; [done |].
        by apply (range_lookup rt). }
    destruct (ValidString (Cached.Name e)) eqn:Hv; [done |].
    by rewrite (collectTarget_panics c os Hl e Hlive Hv) in Hturn.
  - intros Hvalid.
    pose proof (Collect_runs c os Hl rt) as Hrun. unfold runs in Hrun.
    rewrite Hrun; [done |].
    intros target [pid Hpid]%range_targets. by apply (Hvalid pid).
Qed.
